(** * xoxo: call signalling, token endpoint and the video-call component

  A shallow embedding of

  - [CallService] (the Firestore-backed call-invite service),
  - the [POST] handler of the LiveKit token endpoint,
  - the handlers of the [VideoChatLiveKit] React component
    (joining, recording, call termination, duration timer) and the
    effects of its inner component [CustomVideoUI],

  together with the properties the specification states about them. *)

From Stdlib Require Import ZArith NArith String Ascii List Bool Lia QArith_base DecimalString.
From stdpp Require Import gmap strings list.
Import ListNotations.

Set Warnings "-register-all".

Local Open Scope string_scope.
Local Open Scope Z_scope.
Local Open Scope list_scope.

(** ** JavaScript values used by the sources *)

Module Js.

(** *** Strings

    JavaScript sees a string as a sequence of UTF-16 code units. A
    [string] here holds the bytes of its UTF-8 encoding, in the
    generalised form in which an unpaired surrogate has its three bytes
    too, so that every sequence of code units has an encoding. Equality
    and emptiness of the two agree, and so do concatenation, where no
    surrogate pair forms across the seam, and the length of a string of
    ASCII characters, the only ones [padStart] below is given. The order
    does not agree, and [sort] below compares code units. *)

(** The bytes of a [string]. *)
Definition bytes (s : string) : list N :=
  List.map N_of_ascii (list_ascii_of_string s).

(** The code units of a code point: itself, or two surrogates for a
    code point beyond the basic plane. *)
Definition units_of (c : N) : list N :=
  if (c <? 65536)%N then [c]
  else [(55296 + (c - 65536) / 1024)%N; (56320 + (c - 65536) mod 1024)%N].

(** Decoding: one, two, three or four bytes make a code point, as the
    first byte says. What it gives on bytes that are no encoding is of no
    import: [text] below tells the strings that are one. *)
Fixpoint decode (bs : list N) : list N :=
  match bs with
  | [] => []
  | b0 :: r0 =>
      if (b0 <? 128)%N then b0 :: decode r0
      else
        match r0 with
        | [] => [b0]
        | b1 :: r1 =>
            if (b0 <? 224)%N then
              ((b0 mod 32) * 64 + b1 mod 64)%N :: decode r1
            else
              match r1 with
              | [] => [b0; b1]
              | b2 :: r2 =>
                  if (b0 <? 240)%N then
                    ((b0 mod 16) * 4096 + (b1 mod 64) * 64 + b2 mod 64)%N :: decode r2
                  else
                    match r2 with
                    | [] => [b0; b1; b2]
                    | b3 :: r3 =>
                        units_of ((b0 mod 8) * 262144 + (b1 mod 64) * 4096
                                  + (b2 mod 64) * 64 + b3 mod 64)%N
                        ++ decode r3
                    end
              end
        end
  end.

(** The code units of a string. *)
Definition code_units (s : string) : list N := decode (bytes s).

(** Encoding: a code unit below 128 is one byte, one below 2048 two
    bytes; a high surrogate followed by a low one stands for a code point
    beyond the basic plane, four bytes; any other unit is three bytes. *)
Definition three (u : N) : list N :=
  [(224 + u / 4096)%N; (128 + (u / 64) mod 64)%N; (128 + u mod 64)%N].

Fixpoint encode (us : list N) : list N :=
  match us with
  | [] => []
  | u :: r =>
      if (u <? 128)%N then u :: encode r
      else if (u <? 2048)%N then (192 + u / 64)%N :: (128 + u mod 64)%N :: encode r
      else
        match r with
        | v :: r' =>
            if (55296 <=? u)%N && (u <? 56320)%N && (56320 <=? v)%N && (v <? 57344)%N then
              let c := (65536 + (u - 55296) * 1024 + (v - 56320))%N in
              (240 + c / 262144)%N :: (128 + (c / 4096) mod 64)%N ::
              (128 + (c / 64) mod 64)%N :: (128 + c mod 64)%N :: encode r'
            else three u ++ encode r
        | [] => three u
        end
  end.

(** A [string] is the encoding of a JavaScript string when it is the
    encoding of its own code units, each of 16 bits. *)
Definition text (s : string) : bool :=
  forallb (fun u => (u <? 65536)%N) (code_units s) &&
  bool_decide (encode (code_units s) = bytes s).

(** The [string] of a sequence of code units. *)
Definition of_units (us : list N) : string :=
  string_of_list_ascii (List.map ascii_of_N (encode us)).

(** The order of two sequences of code units: that of the first units
    that differ, a proper prefix coming first. *)
Fixpoint compare_units (u v : list N) : comparison :=
  match u, v with
  | [], [] => Eq
  | [], _ :: _ => Lt
  | _ :: _, [] => Gt
  | x :: u', y :: v' =>
      match (x ?= y)%N with
      | Eq => compare_units u' v'
      | c => c
      end
  end.

(** [a < b] on strings. *)
Definition lt (a b : string) : bool :=
  match compare_units (code_units a) (code_units b) with
  | Lt => true
  | _ => false
  end.

(** [x || y] on strings: the empty string is falsy. *)
Definition or_str (x y : string) : string :=
  if String.eqb x "" then y else x.

(** [x || y] where [x] may be [undefined] or [null]. *)
Definition or_opt (x : option string) (y : string) : string :=
  match x with
  | Some s => or_str s y
  | None => y
  end.

(** [Array.prototype.sort()] without a comparator, on an array of
    strings: a stable sort by [<] on the sequences of code units.
    Insertion from the right keeps equal elements in their original
    order. *)
Fixpoint insert (x : string) (l : list string) : list string :=
  match l with
  | [] => [x]
  | y :: l' => if lt y x then y :: insert x l' else x :: y :: l'
  end.

Definition sort (l : list string) : list string :=
  fold_right insert [] l.

(** [Array.prototype.join(sep)]. *)
Definition join (sep : string) (l : list string) : string :=
  String.concat sep l.

(** [Math.floor((a - b) / 1000)] on integer-valued numbers. *)
Definition floor_div_1000 (a b : Z) : Z := (a - b) / 1000.

(** [n.toString()] of an integer-valued number: its decimal digits. *)
Definition toString (n : Z) : string :=
  NilZero.string_of_int (Z.to_int n).

(** A thrown value: an [Error] with its message, or anything else. *)
Inductive Exn :=
| Error (message : string)
| Thrown (description : string).

(** [s.padStart(targetLength, padString)]: [s] itself when it is long
    enough or the pad is empty, else [s] behind as much of the repeated
    pad as it lacks. *)
Fixpoint fill (k : nat) (pad rest : string) : string :=
  match k with
  | O => ""
  | S k' =>
      match rest with
      | String c rest' => String c (fill k' pad rest')
      | EmptyString =>
          match pad with
          | String c pad' => String c (fill k' pad pad')
          | EmptyString => ""
          end
      end
  end.

Definition padStart (targetLength : nat) (padString : string) (s : string) : string :=
  fill (targetLength - String.length s) padString padString +:+ s.

(** The character of a decimal digit. *)
Definition digit (n : Z) : ascii := ascii_of_N (48 + Z.to_N n).

End Js.

(** ** CallService (Firestore) *)

Module CallService.

(** [status: 'ringing' | 'accepted' | 'ended'] *)
Inductive Status := ringing | accepted | ended.

#[global] Instance Status_eq_dec : EqDecision Status.
Proof. solve_decision. Defined.

(** A field of a document of the [calls] collection; [FNull] is what a
    client reads under a field it wrote as [serverTimestamp()] for as
    long as the server has not answered. *)
Inductive FieldValue :=
| FString (s : string)
| FStatus (s : Status)
| FTimestamp (t : Z)
| FNull.

#[global] Instance FieldValue_eq_dec : EqDecision FieldValue.
Proof. solve_decision. Defined.

(** A document is a finite map from field names to values; the [calls]
    collection maps document ids to documents. *)
Abbreviation Doc := (gmap string FieldValue).
Abbreviation Calls := (gmap string (gmap string FieldValue)).

Inductive FirestoreError := NotFound.

Inductive Result (A : Type) :=
| Ok (a : A)
| Err (e : FirestoreError).
Arguments Ok {A} a.
Arguments Err {A} e.

(** [addDoc(collection(db, 'calls'), data)]: stores [data] under the id
    Firestore generated, [autoId], and returns that id. *)
Definition addDoc (autoId : string) (data : Doc) (db : Calls) : string * Calls :=
  (autoId, <[autoId := data]> db).

(** [updateDoc(ref, patch)]: overwrites the fields of [patch] in the
    document and keeps its other fields; it is rejected when the document
    does not exist. *)
Definition updateDoc (id : string) (patch : Doc) (db : Calls) : Result Calls :=
  match db !! id with
  | Some d => Ok (<[id := patch ∪ d]> db)
  | None => Err NotFound
  end.

Record CreateParams := {
  callerId : string;
  callerName : string;
  calleeId : string;
  calleeName : string;
}.

(** The room identifier of two identities:
    [[a, b].sort().join('_')]. *)
Definition roomName (a b : string) : string :=
  Js.join "_" (Js.sort [a; b]).

(** [createCall]; [now] is the value [serverTimestamp()] resolves to. *)
Definition createCall (autoId : string) (now : Z) (params : CreateParams)
    (db : Calls) : (string * string) * Calls :=
  let roomId := roomName (callerId params) (calleeId params) in
  let '(ref_id, db') :=
    addDoc autoId
      (<["roomId" := FString roomId]>
       (<["callerId" := FString (callerId params)]>
       (<["callerName" := FString (callerName params)]>
       (<["calleeId" := FString (calleeId params)]>
       (<["calleeName" := FString (calleeName params)]>
       (<["status" := FStatus ringing]>
       (<["createdAt" := FTimestamp now]>
       (<["updatedAt" := FTimestamp now]> ∅))))))))
      db in
  ((ref_id, roomId), db').

Definition acceptCall (now : Z) (callId : string) (db : Calls) : Result Calls :=
  updateDoc callId
    (<["status" := FStatus accepted]> (<["updatedAt" := FTimestamp now]> ∅)) db.

Definition endCall (now : Z) (callId : string) (db : Calls) : Result Calls :=
  updateDoc callId
    (<["status" := FStatus ended]> (<["updatedAt" := FTimestamp now]> ∅)) db.

(** The status stored for an invite. *)
Definition status_of (db : Calls) (callId : string) : option Status :=
  match db !! callId with
  | Some d =>
      match d !! "status" with
      | Some (FStatus s) => Some s
      | _ => None
      end
  | None => None
  end.

(** A request made to the service, and a run of requests. A rejected
    request leaves the collection as it was. *)
Inductive Request :=
| AcceptCall (now : Z) (callId : string)
| EndCall (now : Z) (callId : string).

Definition perform (r : Request) (db : Calls) : Result Calls :=
  match r with
  | AcceptCall now callId => acceptCall now callId db
  | EndCall now callId => endCall now callId db
  end.

Definition after (r : Request) (db : Calls) : Calls :=
  match perform r db with
  | Ok db' => db'
  | Err _ => db
  end.

(** The statuses an invite goes through along a run, the one before the
    first request included. *)
Fixpoint visited (callId : string) (rs : list Request) (db : Calls)
    : list (option Status) :=
  status_of db callId ::
  match rs with
  | [] => []
  | r :: rs' => visited callId rs' (after r db)
  end.

(** The patch both transitions send, with the status it writes. *)
Definition patch (s : Status) (now : Z) : Doc :=
  <["status" := FStatus s]> (<["updatedAt" := FTimestamp now]> ∅).

(** The invite a request is about and the status it asks for. *)
Definition target (r : Request) : string :=
  match r with AcceptCall _ id | EndCall _ id => id end.

Definition requested (r : Request) : Status :=
  match r with AcceptCall _ _ => accepted | EndCall _ _ => ended end.

(** The server time of a request. *)
Definition stamp (r : Request) : Z :=
  match r with AcceptCall now _ | EndCall now _ => now end.

(** The transitions the specification lists:
    ringing→accepted, ringing→ended, accepted→ended. *)
Definition spec_transition (from to : Status) : bool :=
  match from, to with
  | ringing, accepted | ringing, ended | accepted, ended => true
  | _, _ => false
  end.

(** What the specification asks of a request its machine has no
    transition for: it is rejected, and the status stays what it was. *)
Definition rejects_invalid (r : Request) (db : Calls) : Prop :=
  forall s,
    status_of db (target r) = Some s ->
    spec_transition s (requested r) = false ->
    (exists e, perform r db = Err e) /\
    status_of (after r db) (target r) = Some s.

(** The fields of [CallInvite] other than [status] and [updatedAt] that
    live in the document ([id] is the document's key). *)
Definition other_fields : list string :=
  ["roomId"; "callerId"; "callerName"; "calleeId"; "calleeName"; "createdAt"].

(** *** The listener for incoming calls *)

(** [CallInvite] as [listenIncoming] builds it from a document: the
    document's id, six fields read as they are (whatever the document
    holds under the name, [undefined] when it holds nothing), and the two
    dates. *)
Record CallInvite := {
  inv_id : string;
  inv_roomId : option FieldValue;
  inv_callerId : option FieldValue;
  inv_callerName : option FieldValue;
  inv_calleeId : option FieldValue;
  inv_calleeName : option FieldValue;
  inv_status : option FieldValue;
  inv_createdAt : Z;
  inv_updatedAt : Z;
}.

(** [data.f?.toDate?.() || new Date()]: the date of a timestamp, the
    current date for anything else. *)
Definition toDate_or_now (v : option FieldValue) (today : Z) : Z :=
  match v with
  | Some (FTimestamp t) => t
  | _ => today
  end.

(** The invite handed to the callback for an added document. *)
Definition invite_of (today : Z) (id : string) (data : Doc) : CallInvite :=
  {| inv_id := id;
     inv_roomId := data !! "roomId";
     inv_callerId := data !! "callerId";
     inv_callerName := data !! "callerName";
     inv_calleeId := data !! "calleeId";
     inv_calleeName := data !! "calleeName";
     inv_status := data !! "status";
     inv_createdAt := toDate_or_now (data !! "createdAt") today;
     inv_updatedAt := toDate_or_now (data !! "updatedAt") today |}.

(** [where('calleeId', '==', userId), where('status', '==', 'ringing')] *)
Definition incoming (userId : string) (data : Doc) : bool :=
  bool_decide (data !! "calleeId" = Some (FString userId)) &&
  bool_decide (data !! "status" = Some (FStatus ringing)).

(** The result of the query on a collection. *)
Definition query (userId : string) (db : Calls) : Calls :=
  filter (fun entry => incoming userId entry.2 = true) db.

(** The changes of type ['added'] of a snapshot: the documents of the
    result that were not in the previous result. *)
Definition added (previous result : Calls) : list (string * Doc) :=
  map_to_list (filter (fun entry => previous !! entry.1 = None) result).

(** One snapshot of the listener [listenIncoming(userId, callback)]:
    the invites the callback is called with, in the order the changes
    are listed, and the result the next snapshot is compared with. The
    listener starts from the empty result. *)
Definition listenIncoming (userId : string) (today : Z) (previous : Calls)
    (db : Calls) : list CallInvite * Calls :=
  let result := query userId db in
  (List.map (fun entry => invite_of today entry.1 entry.2) (added previous result),
   result).

(** The document [createCall] stores. *)
Definition invite_doc (now : Z) (params : CreateParams) : Doc :=
  <["roomId" := FString (roomName (callerId params) (calleeId params))]>
  (<["callerId" := FString (callerId params)]>
  (<["callerName" := FString (callerName params)]>
  (<["calleeId" := FString (calleeId params)]>
  (<["calleeName" := FString (calleeName params)]>
  (<["status" := FStatus ringing]>
  (<["createdAt" := FTimestamp now]>
  (<["updatedAt" := FTimestamp now]> ∅))))))).

(** The document as the client that called [createCall] reads it while
    the write is pending: the two dates, written as [serverTimestamp()],
    are [null]. The other clients read nothing of the document until the
    server has stored it, and then [invite_doc] with the server's time. *)
Definition pending_doc (params : CreateParams) : Doc :=
  <["roomId" := FString (roomName (callerId params) (calleeId params))]>
  (<["callerId" := FString (callerId params)]>
  (<["callerName" := FString (callerName params)]>
  (<["calleeId" := FString (calleeId params)]>
  (<["calleeName" := FString (calleeName params)]>
  (<["status" := FStatus ringing]>
  (<["createdAt" := FNull]>
  (<["updatedAt" := FNull]> ∅))))))).

(** A request with the server time [t]: the time is the server's, given
    when the request is committed. *)
Definition at_time (t : Z) (r : Request) : Request :=
  match r with
  | AcceptCall _ callId => AcceptCall t callId
  | EndCall _ callId => EndCall t callId
  end.

(** A run of requests, and the last request of a run about an invite. *)
Definition after_all (rs : list Request) (db : Calls) : Calls :=
  fold_left (fun db r => after r db) rs db.

Fixpoint last_on (callId : string) (rs : list Request) : option Request :=
  match rs with
  | [] => None
  | r :: rs' =>
      match last_on callId rs' with
      | Some r' => Some r'
      | None => if String.eqb (target r) callId then Some r else None
      end
  end.

End CallService.

(** ** The token endpoint ([POST /api/livekit-token]) *)

Module TokenEndpoint.

(** A parsed JSON value. Numbers are used for their truthiness only
    (zero is falsy), so integers stand for them. *)
Inductive Json :=
| JNull
| JBool (b : bool)
| JNumber (n : Z)
| JString (s : string)
| JArray (items : list Json)
| JObject (fields : list (string * Json)).

(** [v.k] for a value that is not [null]: the member of an object (the
    last one, when the text repeated the key), [undefined] on arrays and
    primitives for the three names the handler reads. *)
Fixpoint member (k : string) (fields : list (string * Json)) : option Json :=
  match fields with
  | [] => None
  | (k', v) :: rest =>
      match member k rest with
      | Some v' => Some v'
      | None => if String.eqb k' k then Some v else None
      end
  end.

Definition prop (v : Json) (k : string) : option Json :=
  match v with
  | JObject fields => member k fields
  | _ => None
  end.

(** Truthiness of a value that may be [undefined]. *)
Definition truthy (v : option Json) : bool :=
  match v with
  | None => false
  | Some JNull => false
  | Some (JBool b) => b
  | Some (JNumber n) => negb (n =? 0)
  | Some (JString s) => negb (String.eqb s "")
  | Some (JArray _) => true
  | Some (JObject _) => true
  end.

(** [x || y] on values that may be [undefined]. *)
Definition or_else (x y : option Json) : option Json :=
  if truthy x then x else y.

(** Truthiness of an environment variable ([string | undefined]). *)
Definition nonempty (v : option string) : bool :=
  match v with
  | Some s => negb (String.eqb s "")
  | None => false
  end.

Record Env := {
  LIVEKIT_API_KEY : option string;
  LIVEKIT_API_SECRET : option string;
}.

(** The request as the handler sees it: what [await request.json()]
    gives, a value or a thrown error (a body that is not JSON). *)
Record NextRequest := {
  json : Js.Exn + Json;
}.

Record Response := {
  status : Z;
  body : Json;
}.

(** [NextResponse.json(body, { status })]; the status defaults to 200. *)
Definition NextResponse_json (body : Json) (status : option Z) : Response :=
  {| status := default 200 status; body := body |}.

Record VideoGrant := {
  roomJoin : bool;
  room : option Json;
  canPublish : bool;
  canSubscribe : bool;
  canPublishData : bool;
}.

(** The [AccessToken] object after [new AccessToken(..)] and [addGrant]. *)
Record AccessToken := {
  apiKey : string;
  apiSecret : string;
  identity : option Json;
  name : option Json;
  grants : list VideoGrant;
}.

(** [new AccessToken(apiKey, apiSecret, { identity, name })] followed by
    [addGrant({ roomJoin: true, room: roomName, .. })]. *)
Definition access_token (apiKey apiSecret : string)
    (roomName participantName participantIdentity : option Json) : AccessToken :=
  {| apiKey := apiKey;
     apiSecret := apiSecret;
     identity := participantIdentity;
     name := or_else participantName participantIdentity;
     grants := [ {| roomJoin := true; room := roomName;
                    canPublish := true; canSubscribe := true;
                    canPublishData := true |} ] |}.

Section Handler.

(** The LiveKit server SDK on the token the handler builds: the signed
    token [at.toJwt()] gives, or the error the SDK throws. *)
Variable toJwt : AccessToken -> Js.Exn + string.

(** The message of the [TypeError] the engine throws when [null] is
    destructured. *)
Variable cannot_destructure : string.

(** [const { roomName, participantName, participantIdentity } = v]:
    destructuring [null] throws a [TypeError]. *)
Definition destructure (v : Json)
    : Js.Exn + (option Json * option Json * option Json) :=
  match v with
  | JNull => inl (Js.Error cannot_destructure)
  | _ => inr (prop v "roomName", prop v "participantName",
              prop v "participantIdentity")
  end.

(** The body of the [try] block: a response, or the thrown value. Past
    the credentials check both variables hold a string. What the handler
    writes to the console is left out. *)
Definition try_block (request : NextRequest) (env : Env) : Js.Exn + Response :=
  match json request with
  | inl e => inl e
  | inr v =>
    match destructure v with
    | inl e => inl e
    | inr (roomName, participantName, participantIdentity) =>
      if negb (truthy roomName) || negb (truthy participantIdentity) then
        inr (NextResponse_json
               (JObject [("error",
                  JString "roomName and participantIdentity are required")])
               (Some 400))
      else
        let apiKey := LIVEKIT_API_KEY env in
        let apiSecret := LIVEKIT_API_SECRET env in
        if negb (nonempty apiKey) || negb (nonempty apiSecret) then
          inr (NextResponse_json
                 (JObject [("error",
                    JString "Server configuration error - LiveKit credentials not set")])
                 (Some 500))
        else
          match toJwt (access_token (default "" apiKey) (default "" apiSecret)
                         roomName participantName participantIdentity) with
          | inl e => inl e
          | inr token =>
              inr (NextResponse_json (JObject [("token", JString token)]) None)
          end
    end
  end.

(** [error instanceof Error ? error.message : 'Unknown error'] *)
Definition details_of (error : Js.Exn) : string :=
  match error with
  | Js.Error message => message
  | Js.Thrown _ => "Unknown error"
  end.

Definition POST (request : NextRequest) (env : Env) : Response :=
  match try_block request env with
  | inr response => response
  | inl error =>
      NextResponse_json
        (JObject [("error", JString "Failed to generate token");
                  ("details", JString (details_of error))])
        (Some 500)
  end.

End Handler.

(** The shapes of body the specification names. *)
Definition is_error_body (b : Json) : bool :=
  match b with
  | JObject fields => match member "error" fields with Some _ => true | None => false end
  | _ => false
  end.

Definition is_token_body (b : Json) : bool :=
  match b with
  | JObject [("token", JString _)] => true
  | _ => false
  end.

(** A required field is missing from the request: no truthy [roomName]
    or no truthy [participantIdentity] can be read from it. *)
Definition required_missing (request : NextRequest) : bool :=
  match json request with
  | inl _ => true
  | inr v => negb (truthy (prop v "roomName")) || negb (truthy (prop v "participantIdentity"))
  end.

Definition credentials_missing (env : Env) : bool :=
  negb (nonempty (LIVEKIT_API_KEY env)) || negb (nonempty (LIVEKIT_API_SECRET env)).

(** The three cases of the specification, for one request: 400 with an
    error body when a required field is missing, else 500 with an error
    body when the credentials are not configured, else a token body. *)
Definition as_specified (toJwt : AccessToken -> Js.Exn + string)
    (cannot_destructure : string) (request : NextRequest) (env : Env) : Prop :=
  let response := POST toJwt cannot_destructure request env in
  if required_missing request then
    status response = 400 /\ is_error_body (body response) = true
  else if credentials_missing env then
    status response = 500 /\ is_error_body (body response) = true
  else is_token_body (body response) = true.

End TokenEndpoint.

(** ** The VideoChatLiveKit component *)

Module VideoChat.

(** *** Data *)

Record Blob := {
  blob_bytes : list Byte.byte;
  blob_type : string;
}.

(** [blob.size] *)
Definition size (b : Blob) : Z := Z.of_nat (List.length (blob_bytes b)).

(** [new Blob(parts, { type })] *)
Definition new_Blob (parts : list Blob) (type : string) : Blob :=
  {| blob_bytes := List.concat (List.map blob_bytes parts); blob_type := type |}.

Record User := {
  uid : string;
  displayName : option string;
}.

(** The props of the component other than the [onEndCall] callback, whose
    invocations are recorded among the calls below. *)
Record Props := {
  partnerId : string;
  partnerName : string;
  connectionFee : Q;
}.

Inductive MediaStream := stream (n : nat).

(** The [useState] cells of the component. [mediaRecorder] holds the
    reference of a recorder object, an index in the world's recorders. *)
Record State := {
  token : string;
  callDuration : Z;
  isRecording : bool;
  recordingTitle : string;
  recordingPrice : Q;
  showRecordingSettings : bool;
  mediaRecorder : option nat;
  recordedChunks : list Blob;
}.

(** What the closures created by one render see: the props, the user of
    the auth context and the state values of that render. *)
Record Render := {
  props : Props;
  user : option User;
  state : State;
}.

(** The argument of [addSessionHistory]. *)
Record SessionHistoryEntry := {
  h_partnerId : string;
  h_partnerUsername : string;
  h_duration : Z;
  h_timestamp : Z;
  h_connectionFee : Q;
  h_wasRecorded : bool;
}.

(** The metadata given to [VideoStorageService.uploadRecording]. *)
Record UploadMetadata := {
  u_title : string;
  u_ownerId : string;
  u_ownerName : string;
  u_partnerId : string;
  u_partnerName : string;
  u_price : Q;
  u_isPublic : bool;
}.

Record UploadResult := {
  recordingId : option string;
  thumbnailUrl : option string;
}.

(** The argument of [addRecording]. *)
Record Recording := {
  r_id : string;
  r_partnerId : string;
  r_partnerUsername : string;
  r_title : string;
  r_duration : Z;
  r_timestamp : Z;
  r_views : Z;
  r_earnings : Z;
  r_price : Q;
  r_isPublic : bool;
  r_thumbnail : option string;
}.

(** The calls the component makes to its collaborators, in the order it
    makes them. [console.log] is recorded with its arguments, all strings
    in this component; [console.error] with its message, the first
    argument: the error that comes second is not recorded. *)
Inductive Call :=
| addSessionHistory (entry : SessionHistoryEntry)
| onEndCall
| uploadRecording (blob : Blob) (metadata : UploadMetadata)
| addRecording (recording : Recording)
| console_log (arguments : list string)
| console_error (message : string)
| alert (message : string).

(** [MediaRecorder.state] *)
Inductive RecordingState := inactive | recording | paused.

(** A recorder object: its state, and the render whose [startRecording]
    created it, the one its [onstop] handler closes over. *)
Record MediaRecorder := {
  rec_state : RecordingState;
  rec_closure : Render;
}.

(** A task the browser has queued: the [dataavailable] and [stop] events
    of a recorder whose [stop()] was called. *)
Inductive Task :=
| RecorderStopped (recorder : nat).

(** An [async] function suspended at an [await] on a collaborator's
    promise. *)
Inductive Awaiting :=
| handleEndCall_addSessionHistory
| handleDisconnect_addSessionHistory
| onstop_uploadRecording (r : Render)
| onstop_addRecording.

(** How an awaited promise settles. The value matters for
    [uploadRecording] only. *)
Inductive Settlement :=
| Fulfilled (value : option UploadResult)
| Rejected.

Record World := {
  w_props : Props;
  w_user : option User;
  w_state : State;
  startTimeRef : Z;
  localStreamRef : option MediaStream;
  now : Z;
  recorderThrows : bool;
  recorders : list MediaRecorder;
  tasks : list Task;
  awaiting : list Awaiting;
  calls : list Call;
}.

(** *** Updates *)

Definition with_state (f : State -> State) (w : World) : World :=
  {| w_props := w_props w; w_user := w_user w; w_state := f (w_state w);
     startTimeRef := startTimeRef w; localStreamRef := localStreamRef w;
     now := now w; recorderThrows := recorderThrows w;
     recorders := recorders w; tasks := tasks w; awaiting := awaiting w;
     calls := calls w |}.

Definition with_now (t : Z) (w : World) : World :=
  {| w_props := w_props w; w_user := w_user w; w_state := w_state w;
     startTimeRef := startTimeRef w; localStreamRef := localStreamRef w;
     now := t; recorderThrows := recorderThrows w;
     recorders := recorders w; tasks := tasks w; awaiting := awaiting w;
     calls := calls w |}.

Definition with_recorders (l : list MediaRecorder) (w : World) : World :=
  {| w_props := w_props w; w_user := w_user w; w_state := w_state w;
     startTimeRef := startTimeRef w; localStreamRef := localStreamRef w;
     now := now w; recorderThrows := recorderThrows w;
     recorders := l; tasks := tasks w; awaiting := awaiting w;
     calls := calls w |}.

Definition with_tasks (l : list Task) (w : World) : World :=
  {| w_props := w_props w; w_user := w_user w; w_state := w_state w;
     startTimeRef := startTimeRef w; localStreamRef := localStreamRef w;
     now := now w; recorderThrows := recorderThrows w;
     recorders := recorders w; tasks := l; awaiting := awaiting w;
     calls := calls w |}.

Definition with_awaiting (l : list Awaiting) (w : World) : World :=
  {| w_props := w_props w; w_user := w_user w; w_state := w_state w;
     startTimeRef := startTimeRef w; localStreamRef := localStreamRef w;
     now := now w; recorderThrows := recorderThrows w;
     recorders := recorders w; tasks := tasks w; awaiting := l;
     calls := calls w |}.

(** A call to a collaborator. *)
Definition call (c : Call) (w : World) : World :=
  {| w_props := w_props w; w_user := w_user w; w_state := w_state w;
     startTimeRef := startTimeRef w; localStreamRef := localStreamRef w;
     now := now w; recorderThrows := recorderThrows w;
     recorders := recorders w; tasks := tasks w; awaiting := awaiting w;
     calls := calls w ++ [c] |}.

(** [await] on the promise of the call just made. *)
Definition await (k : Awaiting) (w : World) : World :=
  with_awaiting (awaiting w ++ [k]) w.

(** The state setters. *)
Definition setToken (v : string) : World -> World :=
  with_state (fun s =>
    {| token := v; callDuration := callDuration s;
       isRecording := isRecording s; recordingTitle := recordingTitle s;
       recordingPrice := recordingPrice s;
       showRecordingSettings := showRecordingSettings s;
       mediaRecorder := mediaRecorder s; recordedChunks := recordedChunks s |}).

Definition setCallDuration (v : Z) : World -> World :=
  with_state (fun s =>
    {| token := token s; callDuration := v;
       isRecording := isRecording s; recordingTitle := recordingTitle s;
       recordingPrice := recordingPrice s;
       showRecordingSettings := showRecordingSettings s;
       mediaRecorder := mediaRecorder s; recordedChunks := recordedChunks s |}).

Definition setIsRecording (v : bool) : World -> World :=
  with_state (fun s =>
    {| token := token s; callDuration := callDuration s;
       isRecording := v; recordingTitle := recordingTitle s;
       recordingPrice := recordingPrice s;
       showRecordingSettings := showRecordingSettings s;
       mediaRecorder := mediaRecorder s; recordedChunks := recordedChunks s |}).

Definition setRecordingTitle (v : string) : World -> World :=
  with_state (fun s =>
    {| token := token s; callDuration := callDuration s;
       isRecording := isRecording s; recordingTitle := v;
       recordingPrice := recordingPrice s;
       showRecordingSettings := showRecordingSettings s;
       mediaRecorder := mediaRecorder s; recordedChunks := recordedChunks s |}).

Definition setRecordingPrice (v : Q) : World -> World :=
  with_state (fun s =>
    {| token := token s; callDuration := callDuration s;
       isRecording := isRecording s; recordingTitle := recordingTitle s;
       recordingPrice := v;
       showRecordingSettings := showRecordingSettings s;
       mediaRecorder := mediaRecorder s; recordedChunks := recordedChunks s |}).

Definition setShowRecordingSettings (v : bool) : World -> World :=
  with_state (fun s =>
    {| token := token s; callDuration := callDuration s;
       isRecording := isRecording s; recordingTitle := recordingTitle s;
       recordingPrice := recordingPrice s;
       showRecordingSettings := v;
       mediaRecorder := mediaRecorder s; recordedChunks := recordedChunks s |}).

Definition setMediaRecorder (v : option nat) : World -> World :=
  with_state (fun s =>
    {| token := token s; callDuration := callDuration s;
       isRecording := isRecording s; recordingTitle := recordingTitle s;
       recordingPrice := recordingPrice s;
       showRecordingSettings := showRecordingSettings s;
       mediaRecorder := v; recordedChunks := recordedChunks s |}).

(** [setRecordedChunks] takes an updater of the previous value;
    [setRecordedChunks([])] is the constant one. *)
Definition setRecordedChunks (f : list Blob -> list Blob) : World -> World :=
  with_state (fun s =>
    {| token := token s; callDuration := callDuration s;
       isRecording := isRecording s; recordingTitle := recordingTitle s;
       recordingPrice := recordingPrice s;
       showRecordingSettings := showRecordingSettings s;
       mediaRecorder := mediaRecorder s; recordedChunks := f (recordedChunks s) |}).

(** The render of the current props and state. *)
Definition render (w : World) : Render :=
  {| props := w_props w; user := w_user w; state := w_state w |}.

(** *** Recording *)

(** [recorder.ondataavailable]: the state updater appends to the chunks
    of the moment it runs. *)
Definition ondataavailable (data : Blob) (w : World) : World :=
  if 0 <? size data then setRecordedChunks (fun prev => prev ++ [data]) w
  else w.

(** [recorder.onstop], up to its first [await]. [r] is the render the
    handler closes over. *)
Definition onstop (r : Render) (w : World) : World :=
  let blob := new_Blob (recordedChunks (state r)) "video/webm" in
  await (onstop_uploadRecording r)
    (call (uploadRecording blob
             {| u_title := Js.or_str (recordingTitle (state r))
                             ("Session with " +:+ partnerName (props r));
                u_ownerId := Js.or_opt (uid <$> user r) "";
                u_ownerName := Js.or_opt (user r ≫= displayName) "User";
                u_partnerId := partnerId (props r);
                u_partnerName := partnerName (props r);
                u_price := recordingPrice (state r);
                u_isPublic := false |}) w).

Definition failed_to_save : Call := console_error "Failed to save recording:".

(** [recorder.onstop] after [uploadRecording] settled. Reading a
    property of an [undefined] result throws into the [catch]. *)
Definition onstop_uploaded (r : Render) (s : Settlement) (w : World) : World :=
  match s with
  | Fulfilled (Some uploadResult) =>
      await onstop_addRecording
        (call (addRecording
                 {| r_id := Js.or_opt (recordingId uploadResult) (Js.toString (now w));
                    r_partnerId := partnerId (props r);
                    r_partnerUsername := partnerName (props r);
                    r_title := Js.or_str (recordingTitle (state r))
                                 ("Session with " +:+ partnerName (props r));
                    r_duration := callDuration (state r);
                    r_timestamp := now w;
                    r_views := 0;
                    r_earnings := 0;
                    r_price := recordingPrice (state r);
                    r_isPublic := false;
                    r_thumbnail := thumbnailUrl uploadResult |}) w)
  | Fulfilled None => call failed_to_save w
  | Rejected => call failed_to_save w
  end.

(** [recorder.onstop] after [addRecording] settled. *)
Definition onstop_registered (s : Settlement) (w : World) : World :=
  match s with
  | Fulfilled _ => call (console_log ["Recording saved successfully"]) w
  | Rejected => call failed_to_save w
  end.

(** [startRecording]. [recorderThrows] says that [new MediaRecorder(..)]
    or [recorder.start()] throws in this browser; otherwise the new
    recorder, with its two handlers, is recording when [start()] returns. *)
Definition startRecording (r : Render) (w : World) : World :=
  match localStreamRef w with
  | None => w
  | Some _ =>
      if recorderThrows w then
        call (console_error "Failed to start recording:") w
      else
        let recorder := List.length (recorders w) in
        let w1 :=
          with_recorders
            (recorders w ++ [ {| rec_state := recording; rec_closure := r |} ]) w in
        setRecordedChunks (fun _ => [])
          (setIsRecording true
             (setMediaRecorder (Some recorder) w1))
  end.

(** [mediaRecorder.stop()] on a recorder that is not inactive: the
    recorder becomes inactive at once, and the browser queues the task
    that fires [dataavailable] and then [stop]. *)
Definition MediaRecorder_stop (recorder : nat) (w : World) : World :=
  match recorders w !! recorder with
  | Some rec =>
      with_tasks (tasks w ++ [RecorderStopped recorder])
        (with_recorders
           (<[recorder := {| rec_state := inactive; rec_closure := rec_closure rec |}]>
              (recorders w)) w)
  | None => w
  end.

(** [stopRecording]: an [async] function without an [await]; its promise
    is resolved when the body has run. *)
Definition stopRecording (r : Render) (w : World) : World :=
  match mediaRecorder (state r) with
  | Some recorder =>
      match rec_state <$> recorders w !! recorder with
      | Some recording =>
          setShowRecordingSettings false
            (setMediaRecorder None
               (setIsRecording false
                  (MediaRecorder_stop recorder w)))
      | _ => w
      end
  | None => w
  end.

(** *** Termination *)

(** [handleEndCall], up to its [await] on [addSessionHistory]. The
    continuation after [await stopRecording()] is a microtask: it runs
    before any task the browser has queued. *)
Definition handleEndCall (r : Render) (w : World) : World :=
  let w1 := if isRecording (state r) then stopRecording r w else w in
  await handleEndCall_addSessionHistory
    (call (addSessionHistory
             {| h_partnerId := partnerId (props r);
                h_partnerUsername := partnerName (props r);
                h_duration := callDuration (state r);
                h_timestamp := now w1;
                h_connectionFee := connectionFee (props r);
                h_wasRecorded := isRecording (state r) |}) w1).

(** [handleDisconnect], up to its [await] on [addSessionHistory]. *)
Definition handleDisconnect (r : Render) (w : World) : World :=
  let duration := Js.floor_div_1000 (now w) (startTimeRef w) in
  await handleDisconnect_addSessionHistory
    (call (addSessionHistory
             {| h_partnerId := partnerId (props r);
                h_partnerUsername := partnerName (props r);
                h_duration := duration;
                h_timestamp := now w;
                h_connectionFee := connectionFee (props r);
                h_wasRecorded := false |}) w).

(** The entry [handleEndCall] writes when it runs from render [r] in a
    world whose clock is that of [w]. *)
Definition entry_of_handleEndCall (r : Render) (w : World) : SessionHistoryEntry :=
  {| h_partnerId := partnerId (props r);
     h_partnerUsername := partnerName (props r);
     h_duration := callDuration (state r);
     h_timestamp := now w;
     h_connectionFee := connectionFee (props r);
     h_wasRecorded := isRecording (state r) |}.

(** The entry [handleDisconnect] writes. *)
Definition entry_of_handleDisconnect (r : Render) (w : World) : SessionHistoryEntry :=
  {| h_partnerId := partnerId (props r);
     h_partnerUsername := partnerName (props r);
     h_duration := Js.floor_div_1000 (now w) (startTimeRef w);
     h_timestamp := now w;
     h_connectionFee := connectionFee (props r);
     h_wasRecorded := false |}.

(** Both handlers end with [onEndCall()] once the history write is
    fulfilled; when it is rejected the handler's own promise is rejected
    and nothing more runs. *)
Definition notify (s : Settlement) (w : World) : World :=
  match s with
  | Fulfilled _ => call onEndCall w
  | Rejected => w
  end.

(** The continuation of a suspended function. *)
Definition resume (k : Awaiting) (s : Settlement) (w : World) : World :=
  match k with
  | handleEndCall_addSessionHistory => notify s w
  | handleDisconnect_addSessionHistory => notify s w
  | onstop_uploadRecording r => onstop_uploaded r s w
  | onstop_addRecording => onstop_registered s w
  end.

(** *** Joining *)

Record TokenRequest := {
  roomName : string;
  participantIdentity : string;
  participantName : string;
}.

(** [getToken]: the body it posts to the token endpoint; none without a
    user id. The request is made when the component mounts, see [mount];
    what becomes of the answer is in [dispatch]. *)
Definition getToken (r : Render) : option TokenRequest :=
  match user r with
  | Some u =>
      if String.eqb (uid u) "" then None
      else
        Some {| roomName := Js.join "_" (Js.sort [uid u; partnerId (props r)]);
                participantIdentity := uid u;
                participantName := Js.or_opt (displayName u) (uid u) |}
  | None => None
  end.

(** The callback of the duration interval. *)
Definition durationInterval (w : World) : World :=
  setCallDuration (Js.floor_div_1000 (now w) (startTimeRef w)) w.

(** *** The component as a machine *)

(** What can happen to a mounted component. The answer to [getToken]'s
    request, a token or a failure, comes only when a request was sent.
    The controls exist once a token is there; the record button when
    not recording, the stop button when recording, the controls of the
    settings dialog while it is shown. [RunTask] is the browser running
    the task at the head of its queue, with the data the recorder
    gathered; [Settle] is the [k]-th awaited promise settling. *)
Inductive Input :=
| TokenReceived (t : string)
| TokenFailed
| Elapse (ms : N)
| IntervalTick
| ClickRecord
| ClickStop
| ClickEndCall
| ChangeTitle (title : string)
| ChangePrice (price : Q)
| ClickStartRecording
| ClickCancel
| Disconnected
| RunTask (data : Blob)
| Settle (k : nat) (s : Settlement).

Definition dispatch (i : Input) (w : World) : World :=
  let r := render w in
  let joined := negb (String.eqb (token (state r)) "") in
  let dialog := joined && showRecordingSettings (state r) in
  match i with
  | TokenReceived t =>
      match getToken r with
      | Some _ => call (console_log ["âœ… LiveKit token received"]) (setToken t w)
      | None => w
      end
  | TokenFailed =>
      match getToken r with
      | Some _ =>
          call onEndCall
            (call (alert "Failed to join video call. Please check your LiveKit credentials.")
               (call (console_error "âŒ LiveKit token error:") w))
      | None => w
      end
  | Elapse ms => with_now (now w + Z.of_N ms) w
  | IntervalTick => durationInterval w
  | ClickRecord =>
      if joined && negb (isRecording (state r))
      then setShowRecordingSettings true w else w
  | ClickStop =>
      if joined && isRecording (state r) then stopRecording r w else w
  | ClickEndCall => if joined then handleEndCall r w else w
  | ChangeTitle title => if dialog then setRecordingTitle title w else w
  | ChangePrice price => if dialog then setRecordingPrice price w else w
  | ClickStartRecording => if dialog then startRecording r w else w
  | ClickCancel => if dialog then setShowRecordingSettings false w else w
  | Disconnected => if joined then handleDisconnect r w else w
  | RunTask data =>
      match tasks w with
      | RecorderStopped recorder :: rest =>
          let w1 := ondataavailable data (with_tasks rest w) in
          match recorders w1 !! recorder with
          | Some rec => onstop (rec_closure rec) w1
          | None => w1
          end
      | [] => w
      end
  | Settle k s =>
      match awaiting w !! k with
      | Some a => resume a s (with_awaiting (delete k (awaiting w)) w)
      | None => w
      end
  end.

Definition run (inputs : list Input) (w : World) : World :=
  fold_left (fun w i => dispatch i w) inputs w.

(** The component when it mounts at time [t0]: the initial state, and
    the effect that calls [getToken], which logs the room it is about to
    ask a token for when there is a user id. *)
Definition initial (p : Props) (u : option User) (t0 : Z) (throws : bool) : World :=
  {| w_props := p; w_user := u;
     w_state := {| token := ""; callDuration := 0; isRecording := false;
                   recordingTitle := ""; recordingPrice := Qmake 999 100;
                   showRecordingSettings := false; mediaRecorder := None;
                   recordedChunks := [] |};
     startTimeRef := t0; localStreamRef := None; now := t0;
     recorderThrows := throws; recorders := []; tasks := [];
     awaiting := []; calls := [] |}.

Definition mount (p : Props) (u : option User) (t0 : Z) (throws : bool) : World :=
  let w := initial p u t0 throws in
  match getToken (render w) with
  | Some t => call (console_log ["ðŸŽ¯ Fetching LiveKit token for room:"; roomName t]) w
  | None => w
  end.

(** The history entries among a list of calls. *)
Definition history (cs : list Call) : list SessionHistoryEntry :=
  omap (fun c => match c with addSessionHistory e => Some e | _ => None end) cs.

(** The calls one input adds. *)
Definition emitted (i : Input) (w : World) : list Call :=
  drop (List.length (calls w)) (calls (dispatch i w)).

(** The chunks delivered one after the other. *)
Definition deliver (chunks : list Blob) (w : World) : World :=
  fold_left (fun w data => ondataavailable data w) chunks w.


Definition is_history (c : Call) : bool :=
  match c with addSessionHistory _ => true | _ => false end.






(** No stream, no recorder, nothing queued: the component has never
    recorded. *)
Definition never_recorded (w : World) : Prop :=
  localStreamRef w = None /\
  isRecording (w_state w) = false /\
  mediaRecorder (w_state w) = None /\
  recorders w = [] /\
  tasks w = [].


(** What the specification asks of repeated termination: at most one
    history entry. *)
Definition at_most_one_entry (w : World) : Prop :=
  (List.length (history (calls w)) <= 1)%nat.

(** *** The clock of the top bar *)

(** [formatDuration]: [Math.floor(seconds / 60)] and [seconds % 60], the
    remainder with the sign of [seconds], each as decimal digits padded
    to two with zeros. *)
Definition formatDuration (seconds : Z) : string :=
  let mins := seconds / 60 in
  let secs := Z.rem seconds 60 in
  Js.padStart 2 "0" (Js.toString mins) +:+ ":" +:+ Js.padStart 2 "0" (Js.toString secs).

End VideoChat.

(** ** The inner component, CustomVideoUI *)

Module CustomVideoUI.

Record Participant := {
  identity : string;
  isLocal : bool;
}.

(** [Track.Source] *)
Inductive Source := Camera | Microphone | ScreenShare | ScreenShareAudio | Unknown.

#[global] Instance Source_eq_dec : EqDecision Source.
Proof. solve_decision. Defined.

Record Dimensions := {
  width : Z;
  height : Z;
}.

Record Publication := {
  dimensions : option Dimensions;
}.

(** A track reference, or a placeholder without a publication. *)
Record TrackReference := {
  participant : Participant;
  publication : option Publication;
  source : Source;
}.

(** [participants.find((p) => p.isLocal)] and
    [participants.find((p) => !p.isLocal)] *)
Definition localParticipant (participants : list Participant) : option Participant :=
  List.find isLocal participants.

Definition remoteParticipant (participants : list Participant) : option Participant :=
  List.find (fun p => negb (isLocal p)) participants.

(** [id === p?.identity]: no string is [undefined]. *)
Definition is_identity_of (id : string) (p : option Participant) : bool :=
  match p with
  | Some q => String.eqb id (identity q)
  | None => false
  end.

(** [tracks.find((t) => t.publication &&
      t.participant.identity === who?.identity && t.source === src)] *)
Definition track_of (who : option Participant) (src : Source)
    (tracks : list TrackReference) : option TrackReference :=
  List.find
    (fun t =>
       bool_decide (is_Some (publication t)) &&
       is_identity_of (identity (participant t)) who &&
       bool_decide (source t = src))
    tracks.

Definition remoteVideoTrack (participants : list Participant)
    (tracks : list TrackReference) : option TrackReference :=
  track_of (remoteParticipant participants) Camera tracks.

Definition localVideoTrack (participants : list Participant)
    (tracks : list TrackReference) : option TrackReference :=
  track_of (localParticipant participants) Camera tracks.

Definition remoteAudioTrack (participants : list Participant)
    (tracks : list TrackReference) : option TrackReference :=
  track_of (remoteParticipant participants) Microphone tracks.

Definition connectionStatus (participants : list Participant) : string :=
  match remoteParticipant participants with
  | Some _ => "connected"
  | None => "connecting"
  end.

(** The inner component with the component that renders it. The inner
    one has a stream reference of its own, [ui_localStreamRef]; the
    streams whose tracks its effect's cleanup stopped are listed in
    [stopped], and [capturing] counts the calls of [getUserMedia] that
    have not settled. *)
Record Page := {
  component : VideoChat.World;
  participants : list Participant;
  tracks : list TrackReference;
  isRemoteVertical : bool;
  ui_localStreamRef : option VideoChat.MediaStream;
  capturing : nat;
  stopped : list VideoChat.MediaStream;
}.

(** The inner component is rendered once there is a token. *)
Definition rendered (pg : Page) : bool :=
  negb (String.eqb (VideoChat.token (VideoChat.w_state (component pg))) "").

(** The dependency of the capture effect, when the inner component is
    rendered. *)
Definition dependency (pg : Page) : option string :=
  if rendered pg then Some (connectionStatus (participants pg)) else None.

(** The effect of the orientation: with dimensions, [height > width];
    without, the flag stays. *)
Definition orientation (pg : Page) : bool :=
  match (remoteVideoTrack (participants pg) (tracks pg) ≫= publication) ≫= dimensions with
  | Some d => height d >? width d
  | None => isRemoteVertical pg
  end.

(** The cleanup of the capture effect stops the tracks of the stream the
    reference holds, and leaves the reference. *)
Definition cleanup (pg : Page) : Page :=
  match ui_localStreamRef pg with
  | Some s =>
      {| component := component pg; participants := participants pg;
         tracks := tracks pg; isRemoteVertical := isRemoteVertical pg;
         ui_localStreamRef := ui_localStreamRef pg; capturing := capturing pg;
         stopped := stopped pg ++ [s] |}
  | None => pg
  end.

(** The capture effect proper: when connected, [getUserMedia] is called. *)
Definition captureLocalStream (pg : Page) : Page :=
  if String.eqb (connectionStatus (participants pg)) "connected" then
    {| component := component pg; participants := participants pg;
       tracks := tracks pg; isRemoteVertical := isRemoteVertical pg;
       ui_localStreamRef := ui_localStreamRef pg; capturing := S (capturing pg);
       stopped := stopped pg |}
  else pg.

(** The effects after a render: when the dependency is not what it was,
    the cleanup of the previous run, if there was one, and a new run, if
    the inner component is there. The orientation follows the track. *)
Definition effects (before : option string) (pg : Page) : Page :=
  let pg1 :=
    {| component := component pg; participants := participants pg;
       tracks := tracks pg;
       isRemoteVertical := if rendered pg then orientation pg else isRemoteVertical pg;
       ui_localStreamRef := ui_localStreamRef pg; capturing := capturing pg;
       stopped := stopped pg |} in
  if decide (before = dependency pg1) then pg1
  else
    let pg2 := match before with Some _ => cleanup pg1 | None => pg1 end in
    match dependency pg1 with
    | Some _ => captureLocalStream pg2
    | None => pg2
    end.

(** What can happen to the page: something happens to the outer
    component; the room reports its participants and tracks; a pending
    [getUserMedia] gives a stream, or fails. *)
Inductive Input :=
| Component (i : VideoChat.Input)
| Room (participants : list Participant) (tracks : list TrackReference)
| Captured (s : VideoChat.MediaStream)
| CaptureFailed.

Definition step (i : Input) (pg : Page) : Page :=
  match i with
  | Component i' =>
      effects (dependency pg)
        {| component := VideoChat.dispatch i' (component pg);
           participants := participants pg; tracks := tracks pg;
           isRemoteVertical := isRemoteVertical pg;
           ui_localStreamRef := ui_localStreamRef pg; capturing := capturing pg;
           stopped := stopped pg |}
  | Room ps ts =>
      effects (dependency pg)
        {| component := component pg; participants := ps; tracks := ts;
           isRemoteVertical := isRemoteVertical pg;
           ui_localStreamRef := ui_localStreamRef pg; capturing := capturing pg;
           stopped := stopped pg |}
  | Captured s =>
      match capturing pg with
      | S n =>
          {| component := component pg; participants := participants pg;
             tracks := tracks pg; isRemoteVertical := isRemoteVertical pg;
             ui_localStreamRef := Some s; capturing := n; stopped := stopped pg |}
      | O => pg
      end
  | CaptureFailed =>
      match capturing pg with
      | S n =>
          {| component :=
               VideoChat.call
                 (VideoChat.console_error "Failed to capture local stream for recording:")
                 (component pg);
             participants := participants pg;
             tracks := tracks pg; isRemoteVertical := isRemoteVertical pg;
             ui_localStreamRef := ui_localStreamRef pg; capturing := n;
             stopped := stopped pg |}
      | O => pg
      end
  end.

Definition run (inputs : list Input) (pg : Page) : Page :=
  fold_left (fun pg i => step i pg) inputs pg.

(** The page when the outer component mounts. *)
Definition mount (p : VideoChat.Props) (u : option VideoChat.User) (t0 : Z)
    (throws : bool) : Page :=
  {| component := VideoChat.mount p u t0 throws;
     participants := []; tracks := []; isRemoteVertical := false;
     ui_localStreamRef := None; capturing := O; stopped := [] |}.

End CustomVideoUI.

(** ** From the component to the endpoint and back *)

Module Join.

(** [JSON.stringify({ roomName, participantIdentity, participantName })]
    as the endpoint parses it. *)
Definition request_of (t : VideoChat.TokenRequest) : TokenEndpoint.NextRequest :=
  {| TokenEndpoint.json :=
       inr (TokenEndpoint.JObject
              [("roomName", TokenEndpoint.JString (VideoChat.roomName t));
               ("participantIdentity",
                TokenEndpoint.JString (VideoChat.participantIdentity t));
               ("participantName",
                TokenEndpoint.JString (VideoChat.participantName t))]) |}.

(** [response.ok] *)
Definition ok (response : TokenEndpoint.Response) : bool :=
  (200 <=? TokenEndpoint.status response) && (TokenEndpoint.status response <=? 299).

(** What [getToken] makes of the answer: [setToken(data.token)] when the
    response is ok, the [catch] otherwise. A body without a string under
    [token] leaves the token falsy. *)
Definition answer (response : TokenEndpoint.Response) : VideoChat.Input :=
  if ok response then
    VideoChat.TokenReceived
      match TokenEndpoint.prop (TokenEndpoint.body response) "token" with
      | Some (TokenEndpoint.JString t) => t
      | _ => ""
      end
  else VideoChat.TokenFailed.

(** [getToken] against the endpoint. *)
Definition join (toJwt : TokenEndpoint.AccessToken -> Js.Exn + string)
    (cannot_destructure : string) (env : TokenEndpoint.Env)
    (w : VideoChat.World) : VideoChat.World :=
  match VideoChat.getToken (VideoChat.render w) with
  | Some t =>
      VideoChat.dispatch
        (answer (TokenEndpoint.POST toJwt cannot_destructure (request_of t) env)) w
  | None => w
  end.

End Join.

(** ** Sample data *)

Module Examples.
Import VideoChat.

(** An invite from [u1] to [u2], created at server time 100 under the id
    [c1], and the collection after [endCall] at time 200. *)
Definition u1_calls_u2 : CallService.CreateParams :=
  {| CallService.callerId := "u1"; CallService.callerName := "Ann";
     CallService.calleeId := "u2"; CallService.calleeName := "Bob" |}.

Definition db_ringing : gmap string (gmap string CallService.FieldValue) :=
  snd (CallService.createCall "c1" 100 u1_calls_u2 ∅).

Definition db_ended : gmap string (gmap string CallService.FieldValue) :=
  CallService.after (CallService.EndCall 200 "c1") db_ringing.

(** A second invite, from [u3] to [u2], created at server time 120 under
    the id [c2] while the first is ringing. *)
Definition u3_calls_u2 : CallService.CreateParams :=
  {| CallService.callerId := "u3"; CallService.callerName := "Cid";
     CallService.calleeId := "u2"; CallService.calleeName := "Bob" |}.

Definition db_two : gmap string (gmap string CallService.FieldValue) :=
  snd (CallService.createCall "c2" 120 u3_calls_u2 db_ringing).

Definition u2 : User := {| uid := "u2"; displayName := None |}.

Definition to_u1 : Props :=
  {| partnerId := "u1"; partnerName := "Ann"; connectionFee := Qmake 5 1 |}.

(** The component of user [u2] in a call with [u1], mounted at time 0. *)
Definition at_mount : World := mount to_u1 (Some u2) 0 false.

(** A state of the handlers' types that no run of the component
    reaches (lemma [never_recorded_mount]): joined, three seconds and a
    half after the start, with a stream under [localStreamRef]. It
    serves to exercise the handlers on their own. *)
Definition with_stream : World :=
  {| w_props := to_u1; w_user := Some u2;
     w_state := {| token := "tok"; callDuration := 3; isRecording := false;
                   recordingTitle := ""; recordingPrice := Qmake 999 100;
                   showRecordingSettings := false; mediaRecorder := None;
                   recordedChunks := [] |};
     startTimeRef := 0; localStreamRef := Some (stream 0); now := 3500;
     recorderThrows := false; recorders := []; tasks := [];
     awaiting := []; calls := [] |}.

Definition chunk : Blob :=
  {| blob_bytes := [Byte.x1a; Byte.x45]; blob_type := "video/webm" |}.

Definition empty_chunk : Blob :=
  {| blob_bytes := []; blob_type := "video/webm" |}.

(** A recording started from the settings dialog of [with_stream]. *)
Definition recording_world : World :=
  run [ClickRecord; ClickStartRecording] with_stream.

(** A first recording stopped and a second one started before the
    browser delivered the first one's data. *)
Definition recording_with_chunk : World :=
  run [ClickStop; ClickRecord; ClickStartRecording; RunTask chunk] recording_world.

(** A call ended by the button 2.2 seconds after the mount, the interval
    having fired once, 1.5 seconds after the mount. *)
Definition ended_between_ticks : World :=
  run [TokenReceived "tok"; Elapse 1500; IntervalTick; Elapse 700; ClickEndCall]
    at_mount.

(** The end-call button, then the transport's disconnect callback. *)
Definition ended_twice : World :=
  run [TokenReceived "tok"; ClickEndCall; Disconnected] at_mount.

(** A server with its credentials, a signer that answers, and three
    requests: a JSON [null], a complete one, one without identity. *)
Definition env_ok : TokenEndpoint.Env :=
  {| TokenEndpoint.LIVEKIT_API_KEY := Some "key";
     TokenEndpoint.LIVEKIT_API_SECRET := Some "secret" |}.

Definition env_empty : TokenEndpoint.Env :=
  {| TokenEndpoint.LIVEKIT_API_KEY := None;
     TokenEndpoint.LIVEKIT_API_SECRET := None |}.

Definition signer (t : TokenEndpoint.AccessToken) : Js.Exn + string := inr "jwt".

Definition failing_signer (t : TokenEndpoint.AccessToken) : Js.Exn + string :=
  inl (Js.Error "signing failed").

Definition type_error : string := "Cannot destructure property of null".

Definition null_request : TokenEndpoint.NextRequest :=
  {| TokenEndpoint.json := inr TokenEndpoint.JNull |}.

Definition complete_body : TokenEndpoint.Json :=
  TokenEndpoint.JObject
    [("roomName", TokenEndpoint.JString "u1_u2");
     ("participantIdentity", TokenEndpoint.JString "u2");
     ("participantName", TokenEndpoint.JString "Bob")].

Definition complete_request : TokenEndpoint.NextRequest :=
  {| TokenEndpoint.json := inr complete_body |}.

Definition anonymous_body : TokenEndpoint.Json :=
  TokenEndpoint.JObject [("roomName", TokenEndpoint.JString "u1_u2")].

Definition anonymous_request : TokenEndpoint.NextRequest :=
  {| TokenEndpoint.json := inr anonymous_body |}.

(** The call ended by the button during the recording: the history write
    is awaited. *)
Definition ending : World :=
  run [ClickEndCall] recording_world.

(** A room with the local participant and a remote one, both with a
    camera track. *)
Definition me : CustomVideoUI.Participant :=
  {| CustomVideoUI.identity := "u2"; CustomVideoUI.isLocal := true |}.

Definition partner : CustomVideoUI.Participant :=
  {| CustomVideoUI.identity := "u1"; CustomVideoUI.isLocal := false |}.

Definition camera_of (p : CustomVideoUI.Participant) : CustomVideoUI.TrackReference :=
  {| CustomVideoUI.participant := p;
     CustomVideoUI.publication :=
       Some {| CustomVideoUI.dimensions :=
                 Some {| CustomVideoUI.width := 1280; CustomVideoUI.height := 720 |} |};
     CustomVideoUI.source := CustomVideoUI.Camera |}.

End Examples.

(** * Properties *)

(** ** Strings and their code units *)

Section Strings.

Local Ltac arith := zify; Z.to_euclidean_division_equations; lia.

(** The digits of a number in base 64. *)
Lemma digits_64 (c : N) :
  (c / 4096 = c / 64 / 64)%N /\ (c / 262144 = c / 64 / 64 / 64)%N.
Proof. rewrite !N.Div0.div_div. now split. Qed.

Lemma mark_mod (mark m d : N) :
  (d < m)%N -> (m <> 0)%N -> (mark mod m = 0)%N -> ((mark + d) mod m = d)%N.
Proof.
  intros Hd Hm Hmark.
  rewrite <- N.Div0.add_mod_idemp_l, Hmark, N.add_0_l. now apply N.mod_small.
Qed.

Lemma two_bytes (u : N) :
  (128 <= u < 2048)%N ->
  (192 <= 192 + u / 64 < 224)%N /\
  (((192 + u / 64) mod 32) * 64 + (128 + u mod 64) mod 64 = u)%N.
Proof.
  intros Hu.
  assert (Hq : (u / 64 < 32)%N) by arith.
  assert (Hr : (u mod 64 < 64)%N) by arith.
  split; [arith |].
  rewrite (mark_mod 192 32), (mark_mod 128 64) by (try reflexivity; lia).
  arith.
Qed.

Lemma three_bytes (u : N) :
  (2048 <= u < 65536)%N ->
  (224 <= 224 + u / 4096 < 240)%N /\
  (((224 + u / 4096) mod 16) * 4096 + ((128 + (u / 64) mod 64) mod 64) * 64
   + (128 + u mod 64) mod 64 = u)%N.
Proof.
  intros Hu. destruct (digits_64 u) as [E _].
  assert (Hq : (u / 4096 < 16)%N) by arith.
  assert (H1 : ((u / 64) mod 64 < 64)%N) by arith.
  assert (H0 : (u mod 64 < 64)%N) by arith.
  split; [arith |].
  rewrite (mark_mod 224 16), !(mark_mod 128 64) by (try reflexivity; lia).
  rewrite E. generalize (u / 64)%N (N.Div0.div_mod u 64). intros q Hq'.
  assert (Hq2 : (q = 64 * (q / 64) + q mod 64)%N) by apply N.Div0.div_mod.
  lia.
Qed.

Lemma four_bytes (c : N) :
  (65536 <= c < 1114112)%N ->
  (240 <= 240 + c / 262144 < 248)%N /\
  (((240 + c / 262144) mod 8) * 262144 + ((128 + (c / 4096) mod 64) mod 64) * 4096
   + ((128 + (c / 64) mod 64) mod 64) * 64 + (128 + c mod 64) mod 64 = c)%N.
Proof.
  intros Hc. destruct (digits_64 c) as [E1 E2].
  assert (Hq : (c / 262144 < 8)%N) by arith.
  assert (H2 : ((c / 4096) mod 64 < 64)%N) by arith.
  assert (H1 : ((c / 64) mod 64 < 64)%N) by arith.
  assert (H0 : (c mod 64 < 64)%N) by arith.
  split; [arith |].
  rewrite (mark_mod 240 8), !(mark_mod 128 64) by (try reflexivity; lia).
  rewrite E1, E2.
  pose proof (N.Div0.div_mod c 64) as D0.
  pose proof (N.Div0.div_mod (c / 64) 64) as D1.
  pose proof (N.Div0.div_mod (c / 64 / 64) 64) as D2.
  revert D0 D1 D2.
  generalize (c mod 64)%N ((c / 64) mod 64)%N ((c / 64 / 64) mod 64)%N
             (c / 64 / 64 / 64)%N.
  generalize (c / 64 / 64)%N. generalize (c / 64)%N.
  intros q1 q2 r0 r1 r2 q3 D0 D1 D2. lia.
Qed.

Lemma surrogates (u v : N) :
  (55296 <= u < 56320)%N -> (56320 <= v < 57344)%N ->
  let c := (65536 + (u - 55296) * 1024 + (v - 56320))%N in
  (65536 <= c < 1114112)%N /\ Js.units_of c = [u; v].
Proof.
  intros Hu Hv c. assert (Hc : (65536 <= c < 1114112)%N) by (subst c; lia).
  split; [exact Hc |]. unfold Js.units_of.
  replace (c <? 65536)%N with false by (symmetry; apply N.ltb_ge; lia).
  replace (c - 65536)%N with ((v - 56320) + (u - 55296) * 1024)%N by (subst c; lia).
  rewrite N.div_add, N.Div0.mod_add by lia.
  rewrite N.div_small, N.mod_small by lia.
  f_equal; [lia | f_equal; lia].
Qed.

(** Every sequence of 16-bit code units is the code units of its
    encoding. *)
Lemma decode_encode (us : list N) :
  Forall (fun u => (u < 65536)%N) us -> Js.decode (Js.encode us) = us.
Proof.
  remember (List.length us) as n eqn:Hn. revert us Hn.
  induction n as [n IH] using lt_wf_ind. intros us Hn Hall.
  destruct us as [| u r]; [reflexivity |].
  apply Forall_cons in Hall as [Hu Hr].
  assert (IHr : Js.decode (Js.encode r) = r)
    by (apply (IH (List.length r)); [subst n; simpl; lia | reflexivity | exact Hr]).
  cbn [Js.encode].
  destruct (u <? 128)%N eqn:E1.
  { cbn [Js.decode]. rewrite E1. now rewrite IHr. }
  destruct (u <? 2048)%N eqn:E2.
  { apply N.ltb_ge in E1. apply N.ltb_lt in E2.
    destruct (two_bytes u ltac:(lia)) as [Hb E].
    cbn [Js.decode].
    replace (192 + u / 64 <? 128)%N with false by (symmetry; apply N.ltb_ge; lia).
    replace (192 + u / 64 <? 224)%N with true by (symmetry; apply N.ltb_lt; lia).
    now rewrite IHr, E. }
  apply N.ltb_ge in E1, E2.
  assert (Hthree : forall rest,
            Js.decode (Js.three u ++ rest) = u :: Js.decode rest).
  { intros rest. destruct (three_bytes u ltac:(lia)) as [Hb E].
    unfold Js.three. cbn [app Js.decode].
    replace (224 + u / 4096 <? 128)%N with false by (symmetry; apply N.ltb_ge; lia).
    replace (224 + u / 4096 <? 224)%N with false by (symmetry; apply N.ltb_ge; lia).
    replace (224 + u / 4096 <? 240)%N with true by (symmetry; apply N.ltb_lt; lia).
    now rewrite E. }
  destruct r as [| v r'].
  { rewrite <- (app_nil_r (Js.three u)). now rewrite Hthree. }
  destruct ((55296 <=? u)%N && (u <? 56320)%N && (56320 <=? v)%N && (v <? 57344)%N) eqn:E3.
  - rewrite !andb_true_iff in E3. destruct E3 as [[[A B] C] D].
    apply N.leb_le in A, C. apply N.ltb_lt in B, D.
    apply Forall_cons in Hr as [Hv Hr'].
    assert (IHr' : Js.decode (Js.encode r') = r')
      by (apply (IH (List.length r')); [subst n; simpl; lia | reflexivity | exact Hr']).
    destruct (surrogates u v ltac:(lia) ltac:(lia)) as [Hc Hunits].
    cbv zeta. cbn [Js.decode].
    set (c := (65536 + (u - 55296) * 1024 + (v - 56320))%N) in *.
    destruct (four_bytes c Hc) as [Hb E].
    replace (240 + c / 262144 <? 128)%N with false by (symmetry; apply N.ltb_ge; lia).
    replace (240 + c / 262144 <? 224)%N with false by (symmetry; apply N.ltb_ge; lia).
    replace (240 + c / 262144 <? 240)%N with false by (symmetry; apply N.ltb_ge; lia).
    now rewrite IHr', E, Hunits.
  - rewrite Hthree. now rewrite IHr.
Qed.

Lemma encode_bytes (us : list N) :
  Forall (fun u => (u < 65536)%N) us ->
  Forall (fun b => (b < 256)%N) (Js.encode us).
Proof.
  remember (List.length us) as n eqn:Hn. revert us Hn.
  induction n as [n IH] using lt_wf_ind. intros us Hn Hall.
  destruct us as [| u r]; [constructor |].
  apply Forall_cons in Hall as [Hu Hr].
  assert (IHr : Forall (fun b => (b < 256)%N) (Js.encode r))
    by (apply (IH (List.length r)); [subst n; simpl; lia | reflexivity | exact Hr]).
  cbn [Js.encode].
  destruct (u <? 128)%N eqn:E1.
  { apply N.ltb_lt in E1. constructor; [lia | exact IHr]. }
  destruct (u <? 2048)%N eqn:E2.
  { apply N.ltb_ge in E1. apply N.ltb_lt in E2.
    destruct (two_bytes u ltac:(lia)) as [Hb _].
    repeat constructor; [lia | arith | exact IHr]. }
  apply N.ltb_ge in E1, E2.
  assert (Hthree : Forall (fun b => (b < 256)%N) (Js.three u)).
  { destruct (three_bytes u ltac:(lia)) as [Hb _].
    unfold Js.three. repeat constructor; [lia | arith | arith]. }
  destruct r as [| v r']; [exact Hthree |].
  destruct ((55296 <=? u)%N && (u <? 56320)%N && (56320 <=? v)%N && (v <? 57344)%N) eqn:E3.
  - rewrite !andb_true_iff in E3. destruct E3 as [[[A B] C] D].
    apply N.leb_le in A, C. apply N.ltb_lt in B, D.
    apply Forall_cons in Hr as [Hv Hr'].
    assert (IHr' : Forall (fun b => (b < 256)%N) (Js.encode r'))
      by (apply (IH (List.length r')); [subst n; simpl; lia | reflexivity | exact Hr']).
    destruct (surrogates u v ltac:(lia) ltac:(lia)) as [Hc _].
    cbv zeta.
    set (c := (65536 + (u - 55296) * 1024 + (v - 56320))%N) in *.
    destruct (four_bytes c Hc) as [Hb _].
    repeat constructor; [lia | arith | arith | arith | exact IHr'].
  - apply Forall_app. now split.
Qed.

Lemma bytes_of_units (us : list N) :
  Forall (fun u => (u < 65536)%N) us -> Js.bytes (Js.of_units us) = Js.encode us.
Proof.
  intros H. apply encode_bytes in H. unfold Js.bytes, Js.of_units.
  rewrite list_ascii_of_string_of_list_ascii.
  induction H as [| b bs Hb _ IH]; [reflexivity |].
  simpl. rewrite IH. f_equal. now apply N_ascii_embedding.
Qed.

(** Every string of JavaScript has its [string]. *)
Lemma text_of_units (us : list N) :
  Forall (fun u => (u < 65536)%N) us ->
  Js.code_units (Js.of_units us) = us /\ Js.text (Js.of_units us) = true.
Proof.
  intros H.
  assert (E : Js.code_units (Js.of_units us) = us)
    by (unfold Js.code_units; rewrite bytes_of_units by exact H; now apply decode_encode).
  split; [exact E |]. unfold Js.text. rewrite E, bytes_of_units by exact H.
  apply andb_true_iff. split.
  - apply forallb_forall. intros u Hin. apply N.ltb_lt.
    rewrite Forall_forall in H. apply H. now apply list_elem_of_In.
  - now apply bool_decide_eq_true.
Qed.

End Strings.

(** ** The room identifier *)

Section RoomName.
Import CallService.

Lemma compare_units_antisym (u v : list N) :
  Js.compare_units v u = CompOpp (Js.compare_units u v).
Proof.
  revert v. induction u as [| x u IH]; intros [| y v]; simpl; try reflexivity.
  rewrite (N.compare_antisym x y).
  destruct (x ?= y)%N; simpl; [apply IH | reflexivity | reflexivity].
Qed.

Lemma compare_units_eq (u v : list N) :
  Js.compare_units u v = Eq -> u = v.
Proof.
  revert v. induction u as [| x u IH]; intros [| y v]; simpl;
    try discriminate; [reflexivity |].
  destruct (x ?= y)%N eqn:E; try discriminate.
  apply N.compare_eq in E. intros H. f_equal; [exact E | now apply IH].
Qed.

Lemma bytes_inj (a b : string) : Js.bytes a = Js.bytes b -> a = b.
Proof.
  unfold Js.bytes. intros H.
  rewrite <- (string_of_list_ascii_of_string a), <- (string_of_list_ascii_of_string b).
  f_equal.
  revert H. generalize (list_ascii_of_string a) (list_ascii_of_string b).
  induction l as [| x l IH]; intros [| y l']; simpl; try discriminate; [reflexivity |].
  intros [= Hx Hl]. f_equal; [| now apply IH].
  rewrite <- (ascii_N_embedding x), <- (ascii_N_embedding y). now rewrite Hx.
Qed.

(** Two strings of JavaScript with the same code units are the same. *)
Lemma text_units_inj (a b : string) :
  Js.text a = true -> Js.text b = true ->
  Js.code_units a = Js.code_units b -> a = b.
Proof.
  unfold Js.text. rewrite !andb_true_iff, !bool_decide_eq_true.
  intros [_ Ha] [_ Hb] E. apply bytes_inj. rewrite <- Ha, <- Hb. now rewrite E.
Qed.

Lemma lt_asym (a b : string) : Js.lt a b = true -> Js.lt b a = false.
Proof.
  unfold Js.lt. rewrite (compare_units_antisym (Js.code_units a)).
  now destruct (Js.compare_units _ _).
Qed.

Lemma lt_total (a b : string) :
  Js.text a = true -> Js.text b = true ->
  Js.lt a b = false -> Js.lt b a = false -> a = b.
Proof.
  intros Ha Hb. unfold Js.lt. rewrite (compare_units_antisym (Js.code_units a)).
  destruct (Js.compare_units (Js.code_units a) (Js.code_units b)) eqn:E;
    simpl; try discriminate.
  intros _ _. apply text_units_inj; try assumption. now apply compare_units_eq.
Qed.

(** Sorting a pair puts the smaller identity first and keeps the order of
    the two when neither is smaller. *)
Lemma sort_pair (a b : string) :
  Js.sort [a; b] = if Js.lt b a then [b; a] else [a; b].
Proof. reflexivity. Qed.

Lemma sort_pair_comm (a b : string) :
  Js.text a = true -> Js.text b = true -> Js.sort [a; b] = Js.sort [b; a].
Proof.
  intros Ha Hb. rewrite !sort_pair.
  destruct (Js.lt b a) eqn:E1.
  - now rewrite (lt_asym b a E1).
  - destruct (Js.lt a b) eqn:E2; [reflexivity |].
    now rewrite (lt_total a b Ha Hb E2 E1).
Qed.

Lemma roomName_unfold (a b : string) :
  roomName a b = if Js.lt b a then b +:+ "_" +:+ a else a +:+ "_" +:+ b.
Proof.
  unfold roomName, Js.join. rewrite sort_pair.
  destruct (Js.lt b a); reflexivity.
Qed.

Lemma roomName_comm (a b : string) :
  Js.text a = true -> Js.text b = true -> roomName a b = roomName b a.
Proof. intros Ha Hb. unfold roomName. now rewrite sort_pair_comm. Qed.

End RoomName.

(** C4. The room identifier does not depend on the order of the two
    identities, whatever strings of JavaScript, sequences of 16-bit code
    units, they are. It is the two identities with the separator ["_"]
    between them, the one that is smaller in the order of their UTF-16
    code units first, the given order kept when neither is smaller.
    [createCall] returns and stores the room of its caller and callee,
    so the call from [b] to [a] gets the room of the call from [a] to
    [b], and the call from [u1] to [u2] the room ["u1_u2"]. The
    component's [getToken] asks for the room of the user and the partner,
    so the two sides of a call ask for the same room, the one
    [createCall] returned. *)
Theorem C4_roomName_order_independent :
  (forall a b,
     Js.text a = true -> Js.text b = true ->
     CallService.roomName a b = CallService.roomName b a) /\
  (forall u v,
     Forall (fun x => (x < 65536)%N) u -> Forall (fun x => (x < 65536)%N) v ->
     Js.code_units (Js.of_units u) = u /\ Js.code_units (Js.of_units v) = v /\
     CallService.roomName (Js.of_units u) (Js.of_units v) =
       CallService.roomName (Js.of_units v) (Js.of_units u)) /\
  (forall a b,
     CallService.roomName a b =
       if Js.lt b a then b +:+ "_" +:+ a else a +:+ "_" +:+ b) /\
  (forall a b,
     exists x y,
       CallService.roomName a b = x +:+ "_" +:+ y /\
       Js.lt y x = false /\
       ((x = a /\ y = b) \/ (x = b /\ y = a))) /\
  (forall autoId now params db,
     let '((callId, roomId), db') := CallService.createCall autoId now params db in
     callId = autoId /\
     roomId = CallService.roomName (CallService.callerId params)
                (CallService.calleeId params) /\
     db' !! callId ≫= (fun d => d !! "roomId") = Some (CallService.FString roomId)) /\
  (forall autoId autoId' now now' params params' db db',
     Js.text (CallService.callerId params) = true ->
     Js.text (CallService.calleeId params) = true ->
     CallService.callerId params' = CallService.calleeId params ->
     CallService.calleeId params' = CallService.callerId params ->
     snd (fst (CallService.createCall autoId' now' params' db')) =
       snd (fst (CallService.createCall autoId now params db))) /\
  (forall autoId now callerName calleeName db,
     snd (fst (CallService.createCall autoId now
                 {| CallService.callerId := "u1"; CallService.callerName := callerName;
                    CallService.calleeId := "u2"; CallService.calleeName := calleeName |}
                 db)) = "u1_u2" /\
     snd (fst (CallService.createCall autoId now
                 {| CallService.callerId := "u2"; CallService.callerName := callerName;
                    CallService.calleeId := "u1"; CallService.calleeName := calleeName |}
                 db)) = "u1_u2") /\
  (forall r u,
     VideoChat.user r = Some u -> VideoChat.uid u <> "" ->
     VideoChat.roomName <$> VideoChat.getToken r =
       Some (CallService.roomName (VideoChat.uid u)
               (VideoChat.partnerId (VideoChat.props r)))) /\
  (forall r r' u u' autoId now params db,
     VideoChat.user r = Some u -> VideoChat.user r' = Some u' ->
     VideoChat.uid u <> "" -> VideoChat.uid u' <> "" ->
     Js.text (VideoChat.uid u) = true -> Js.text (VideoChat.uid u') = true ->
     VideoChat.partnerId (VideoChat.props r) = VideoChat.uid u' ->
     VideoChat.partnerId (VideoChat.props r') = VideoChat.uid u ->
     CallService.callerId params = VideoChat.uid u ->
     CallService.calleeId params = VideoChat.uid u' ->
     VideoChat.roomName <$> VideoChat.getToken r =
       Some (snd (fst (CallService.createCall autoId now params db))) /\
     VideoChat.roomName <$> VideoChat.getToken r' =
       Some (snd (fst (CallService.createCall autoId now params db)))).
Proof.
  assert (Hget : forall r u,
     VideoChat.user r = Some u -> VideoChat.uid u <> "" ->
     VideoChat.roomName <$> VideoChat.getToken r =
       Some (CallService.roomName (VideoChat.uid u)
               (VideoChat.partnerId (VideoChat.props r)))).
  { intros r u Hu Hne. unfold VideoChat.getToken. rewrite Hu.
    destruct (String.eqb (VideoChat.uid u) "") eqn:E; [| reflexivity].
    apply String.eqb_eq in E. contradiction. }
  split; [exact roomName_comm |].
  split.
  { intros u v Hu Hv.
    destruct (text_of_units u Hu) as [Eu Tu], (text_of_units v Hv) as [Ev Tv].
    split; [exact Eu |]. split; [exact Ev |]. now apply roomName_comm. }
  split; [exact roomName_unfold |].
  split; [| split; [| split; [| split; [| split; [exact Hget |]]]]].
  - intros a b. rewrite roomName_unfold. destruct (Js.lt b a) eqn:E.
    + exists b, a. split; [reflexivity |]. split; [now apply lt_asym | now right].
    + exists a, b. split; [reflexivity |]. split; [exact E | now left].
  - intros autoId now params db. cbn.
    split; [reflexivity |]. split; [reflexivity |].
    now rewrite lookup_insert_eq.
  - intros autoId autoId' now now' params params' db db' Ha Hb E1 E2.
    cbn. rewrite E1, E2. now apply roomName_comm.
  - intros autoId now callerName calleeName db. split; reflexivity.
  - intros r r' u u' autoId now params db Hu Hu' Hne Hne' Ht Ht' Hp Hp' Hc1 Hc2.
    rewrite (Hget r u Hu Hne), (Hget r' u' Hu' Hne'). cbn.
    rewrite Hp, Hp', Hc1, Hc2. split; [reflexivity |].
    f_equal. now apply roomName_comm.
Qed.

Lemma C4_roomName_witness :
  CallService.roomName "Ａ" "😀" = CallService.roomName "😀" "Ａ" /\
  CallService.roomName "Ａ" "😀" = "😀_Ａ" /\
  snd (fst (CallService.createCall "c2" 7
              {| CallService.callerId := "😀"; CallService.callerName := "Joy";
                 CallService.calleeId := "Ａ"; CallService.calleeName := "Ann" |} ∅)) =
    snd (fst (CallService.createCall "c1" 5
                {| CallService.callerId := "Ａ"; CallService.callerName := "Ann";
                   CallService.calleeId := "😀"; CallService.calleeName := "Joy" |} ∅)) /\
  VideoChat.roomName <$> VideoChat.getToken (VideoChat.render Examples.at_mount) =
    Some (CallService.roomName "u2" "u1").
Proof.
  split; [| split; [| split]].
  - exact (proj1 C4_roomName_order_independent "Ａ" "😀" eq_refl eq_refl).
  - exact (proj1 (proj2 (proj2 C4_roomName_order_independent)) "Ａ" "😀").
  - exact (proj1 (proj2 (proj2 (proj2 (proj2 (proj2 C4_roomName_order_independent)))))
             "c1" "c2" 5 7
             {| CallService.callerId := "Ａ"; CallService.callerName := "Ann";
                CallService.calleeId := "😀"; CallService.calleeName := "Joy" |}
             {| CallService.callerId := "😀"; CallService.callerName := "Joy";
                CallService.calleeId := "Ａ"; CallService.calleeName := "Ann" |}
             ∅ ∅ eq_refl eq_refl eq_refl eq_refl).
  - exact (proj1 (proj2 (proj2 (proj2 (proj2 (proj2 (proj2 (proj2
             C4_roomName_order_independent)))))))
             (VideoChat.render Examples.at_mount) Examples.u2
             eq_refl ltac:(discriminate)).
Defined.

(** ** The invite state machine *)

Section Invite.
Import CallService.

Lemma updateDoc_Ok (id : string) (patch : Doc) (db db' : Calls) :
  updateDoc id patch db = Ok db' ->
  exists d, db !! id = Some d /\ db' = <[id := patch ∪ d]> db.
Proof.
  unfold updateDoc. destruct (db !! id) as [d|] eqn:E; [| discriminate].
  intros [= <-]. eauto.
Qed.

Lemma updateDoc_present (id : string) (patch : Doc) (db : Calls) (d : Doc) :
  db !! id = Some d -> updateDoc id patch db = Ok (<[id := patch ∪ d]> db).
Proof. intros E. unfold updateDoc. now rewrite E. Qed.

Lemma updateDoc_missing (id : string) (patch : Doc) (db : Calls) :
  db !! id = None -> updateDoc id patch db = Err NotFound.
Proof. intros E. unfold updateDoc. now rewrite E. Qed.

Lemma patch_other (s : Status) (now : Z) (f : string) :
  f <> "status" -> f <> "updatedAt" -> patch s now !! f = None.
Proof.
  intros H1 H2. unfold patch.
  rewrite lookup_insert_ne by congruence.
  rewrite lookup_insert_ne by congruence.
  apply lookup_empty.
Qed.

Lemma status_of_patched (s : Status) (now : Z) (id : string) (d : Doc) (db : Calls) :
  status_of (<[id := patch s now ∪ d]> db) id = Some s.
Proof.
  unfold status_of. rewrite lookup_insert_eq.
  rewrite (lookup_union_Some_l _ _ _ (FStatus s)); [reflexivity |].
  unfold patch. apply lookup_insert_eq.
Qed.

Lemma status_of_other (id id' : string) (d : Doc) (db : Calls) :
  id <> id' -> status_of (<[id := d]> db) id' = status_of db id'.
Proof. intros H. unfold status_of. now rewrite lookup_insert_ne. Qed.

Lemma perform_updateDoc (r : Request) (db : Calls) :
  exists now, perform r db = updateDoc (target r) (patch (requested r) now) db.
Proof. destruct r as [now id | now id]; exists now; reflexivity. Qed.

(** After a request the status of an invite is the one requested, or
    the one it had. *)
Lemma status_after (r : Request) (db : Calls) (id : string) :
  status_of (after r db) id = Some (requested r) \/
  status_of (after r db) id = status_of db id.
Proof.
  unfold after. destruct (perform_updateDoc r db) as [now ->].
  destruct (updateDoc (target r) _ db) as [db'|e] eqn:E; [| now right].
  apply updateDoc_Ok in E as (d & Hd & ->).
  destruct (decide (target r = id)) as [<- | Hne].
  - left. apply status_of_patched.
  - right. now apply status_of_other.
Qed.

Lemma requested_not_ringing (r : Request) : requested r <> ringing.
Proof. destruct r; discriminate. Qed.

(** Once the status is not [ringing] it is not [ringing] anywhere later
    in the run. *)
Lemma visited_never_ringing (id : string) (rs : list Request) (db : Calls) :
  status_of db id <> Some ringing ->
  Forall (fun s => s <> Some ringing) (visited id rs db).
Proof.
  revert db. induction rs as [| r rs IH]; intros db H; simpl.
  - constructor; [exact H | constructor].
  - constructor; [exact H |].
    apply IH. destruct (status_after r db id) as [-> | ->].
    + intros [= E]. now apply (requested_not_ringing r).
    + exact H.
Qed.

(** Every suffix of the statuses visited is itself a run's. *)
Lemma visited_suffix (id : string) (rs : list Request) (db : Calls)
    (pre : list (option Status)) (x : option Status) (post : list (option Status)) :
  visited id rs db = pre ++ x :: post ->
  exists rs' db', x :: post = visited id rs' db'.
Proof.
  revert rs db. induction pre as [| p pre IH]; intros rs db H.
  - exists rs, db. now rewrite H.
  - destruct rs as [| r rs]; simpl in H.
    + destruct pre; discriminate.
    + injection H as _ H. eapply IH. exact H.
Qed.

End Invite.

(** C1, as the code has it. [acceptCall] writes [accepted] and [endCall]
    writes [ended] whatever the status of the invite was: none of the two
    reads the status, and the only rejection is [updateDoc]'s on a
    document that does not exist. As neither writes [ringing], no run of
    requests visits [ringing] after [accepted] or [ended]. *)
Theorem C1_transitions_unguarded :
  (forall now callId db d,
     db !! callId = Some d ->
     exists db', CallService.acceptCall now callId db = CallService.Ok db' /\
                 CallService.status_of db' callId = Some CallService.accepted) /\
  (forall now callId db d,
     db !! callId = Some d ->
     exists db', CallService.endCall now callId db = CallService.Ok db' /\
                 CallService.status_of db' callId = Some CallService.ended) /\
  (forall now callId db,
     db !! callId = None ->
     CallService.acceptCall now callId db = CallService.Err CallService.NotFound /\
     CallService.endCall now callId db = CallService.Err CallService.NotFound) /\
  (forall callId rs db pre s post,
     CallService.visited callId rs db = pre ++ Some s :: post ->
     s <> CallService.ringing ->
     ~ In (Some CallService.ringing) post).
Proof.
  split; [| split; [| split]].
  - intros now callId db d Hd. eexists. split.
    + unfold CallService.acceptCall. apply updateDoc_present. exact Hd.
    + apply (status_of_patched CallService.accepted).
  - intros now callId db d Hd. eexists. split.
    + unfold CallService.endCall. apply updateDoc_present. exact Hd.
    + apply (status_of_patched CallService.ended).
  - intros now callId db Hd. split.
    + unfold CallService.acceptCall. now apply updateDoc_missing.
    + unfold CallService.endCall. now apply updateDoc_missing.
  - intros callId rs db pre s post Hv Hs Hin.
    apply visited_suffix in Hv as (rs' & db' & Hv).
    assert (Hall : Forall (fun s => s <> Some CallService.ringing)
                     (CallService.visited callId rs' db')).
    { apply visited_never_ringing.
      destruct rs'; simpl in Hv; injection Hv as <- _; congruence. }
    rewrite <- Hv in Hall. inversion Hall as [| ? ? _ Hpost]; subst.
    rewrite Forall_forall in Hpost. apply list_elem_of_In in Hin.
    exact (Hpost _ Hin eq_refl).
Qed.

Lemma C1_transitions_witness :
  (exists db', CallService.acceptCall 300 "c1" Examples.db_ended = CallService.Ok db' /\
               CallService.status_of db' "c1" = Some CallService.accepted) /\
  ~ In (Some CallService.ringing) [Some CallService.ended].
Proof.
  split.
  - refine (proj1 C1_transitions_unguarded 300 "c1" Examples.db_ended _ _).
    vm_compute. reflexivity.
  - refine (proj2 (proj2 (proj2 C1_transitions_unguarded)) "c1"
              [CallService.AcceptCall 150 "c1"; CallService.EndCall 200 "c1"]
              Examples.db_ringing [Some CallService.ringing] CallService.accepted
              [Some CallService.ended] _ _).
    + vm_compute. reflexivity.
    + discriminate.
Defined.

(** C1 as stated fails: on an invite that has ended, [acceptCall] is not
    rejected and moves the status back to [accepted], a transition the
    specification's machine does not have. *)
Lemma C1_counterexample :
  ~ CallService.rejects_invalid (CallService.AcceptCall 300 "c1") Examples.db_ended.
Proof.
  intros H. destruct (H CallService.ended) as [_ Hs].
  - vm_compute. reflexivity.
  - reflexivity.
  - vm_compute in Hs. discriminate.
Qed.

(** A request that succeeds found the document and merged its patch
    into it. *)
Lemma perform_Ok (r : CallService.Request)
    (db db' : gmap string (gmap string CallService.FieldValue)) :
  CallService.perform r db = CallService.Ok db' ->
  exists d,
    db !! CallService.target r = Some d /\
    db' = <[CallService.target r :=
              CallService.patch (CallService.requested r) (CallService.stamp r) ∪ d]> db.
Proof.
  intros H. apply updateDoc_Ok. rewrite <- H. now destruct r.
Qed.

Lemma patch_status (s : CallService.Status) (now : Z)
    (d : gmap string CallService.FieldValue) :
  (CallService.patch s now ∪ d) !! "status" = Some (CallService.FStatus s).
Proof. apply lookup_union_Some_l. apply lookup_insert_eq. Qed.

Lemma patch_updatedAt (s : CallService.Status) (now : Z)
    (d : gmap string CallService.FieldValue) :
  (CallService.patch s now ∪ d) !! "updatedAt" = Some (CallService.FTimestamp now).
Proof.
  apply lookup_union_Some_l. unfold CallService.patch.
  rewrite lookup_insert_ne by discriminate. apply lookup_insert_eq.
Qed.

Lemma patch_frame (s : CallService.Status) (now : Z)
    (d : gmap string CallService.FieldValue) (f : string) :
  f <> "status" -> f <> "updatedAt" -> (CallService.patch s now ∪ d) !! f = d !! f.
Proof. intros H1 H2. apply lookup_union_r. now apply patch_other. Qed.

(** C9. A transition request that succeeds rewrites [status] and
    [updatedAt] of the invite's document and nothing else: every other
    field of the document, the six other stored fields of [CallInvite]
    among them, keeps its value, the document stays under its id, and the
    other documents are untouched. *)
Theorem C9_patch_frame :
  forall r db db',
    CallService.perform r db = CallService.Ok db' ->
    exists d d',
      db !! CallService.target r = Some d /\
      db' !! CallService.target r = Some d' /\
      d' !! "status" = Some (CallService.FStatus (CallService.requested r)) /\
      d' !! "updatedAt" = Some (CallService.FTimestamp (CallService.stamp r)) /\
      (forall f, f <> "status" -> f <> "updatedAt" -> d' !! f = d !! f) /\
      Forall (fun f => d' !! f = d !! f) CallService.other_fields /\
      (forall id, id <> CallService.target r -> db' !! id = db !! id).
Proof.
  intros r db db' H. apply perform_Ok in H as (d & Hd & ->).
  exists d, (CallService.patch (CallService.requested r) (CallService.stamp r) ∪ d).
  repeat split.
  - exact Hd.
  - apply lookup_insert_eq.
  - apply patch_status.
  - apply patch_updatedAt.
  - intros f. apply patch_frame.
  - unfold CallService.other_fields.
    repeat (constructor; [apply patch_frame; discriminate |]). constructor.
  - intros id Hne. now apply lookup_insert_ne.
Qed.

Lemma C9_patch_frame_witness :
  exists d d',
    Examples.db_ringing !! "c1" = Some d /\
    Examples.db_ended !! "c1" = Some d' /\
    d' !! "status" = Some (CallService.FStatus CallService.ended) /\
    d' !! "updatedAt" = Some (CallService.FTimestamp 200) /\
    (forall f, f <> "status" -> f <> "updatedAt" -> d' !! f = d !! f) /\
    Forall (fun f => d' !! f = d !! f) CallService.other_fields /\
    (forall id, id <> "c1" -> Examples.db_ended !! id = Examples.db_ringing !! id).
Proof.
  exact (C9_patch_frame (CallService.EndCall 200 "c1") Examples.db_ringing
           Examples.db_ended eq_refl).
Defined.

(** ** The token endpoint *)

Section Endpoint.
Import TokenEndpoint.

Lemma truthy_prop_not_null (v : Json) (k : string) :
  truthy (prop v k) = true -> v <> JNull.
Proof. intros H ->. discriminate. Qed.

Lemma destructure_not_null (m : string) (v : Json) :
  v <> JNull ->
  destructure m v =
    inr (prop v "roomName", prop v "participantName", prop v "participantIdentity").
Proof. destruct v; [contradiction | reflexivity ..]. Qed.

End Endpoint.

(** C8, as the code has it. A body that parses to a value other than
    [null] and lacks a truthy [roomName] or [participantIdentity] gets 400
    and an error body; with both present and a credential missing or
    empty, 500 and an error body; with both present, the credentials set
    and the signer answering, status 200 and the token body. Whenever
    something throws (the body is not JSON, the body is [null], the signer
    throws) the response is 500 with the error ["Failed to generate
    token"] and the details of what was thrown. *)
Theorem C8_token_endpoint_responses :
  forall toJwt cannot_destructure request env,
    let response := TokenEndpoint.POST toJwt cannot_destructure request env in
    let error (m : string) := TokenEndpoint.JObject [("error", TokenEndpoint.JString m)] in
    let failure (e : Js.Exn) :=
      {| TokenEndpoint.status := 500;
         TokenEndpoint.body :=
           TokenEndpoint.JObject
             [("error", TokenEndpoint.JString "Failed to generate token");
              ("details", TokenEndpoint.JString (TokenEndpoint.details_of e))] |} in
    (forall v,
       TokenEndpoint.json request = inr v -> v <> TokenEndpoint.JNull ->
       TokenEndpoint.required_missing request = true ->
       response =
         {| TokenEndpoint.status := 400;
            TokenEndpoint.body := error "roomName and participantIdentity are required" |}) /\
    (TokenEndpoint.required_missing request = false ->
     TokenEndpoint.credentials_missing env = true ->
     response =
       {| TokenEndpoint.status := 500;
          TokenEndpoint.body :=
            error "Server configuration error - LiveKit credentials not set" |}) /\
    (forall v apiKey apiSecret,
       TokenEndpoint.json request = inr v ->
       TokenEndpoint.required_missing request = false ->
       TokenEndpoint.credentials_missing env = false ->
       TokenEndpoint.LIVEKIT_API_KEY env = Some apiKey ->
       TokenEndpoint.LIVEKIT_API_SECRET env = Some apiSecret ->
       match toJwt (TokenEndpoint.access_token apiKey apiSecret
                      (TokenEndpoint.prop v "roomName")
                      (TokenEndpoint.prop v "participantName")
                      (TokenEndpoint.prop v "participantIdentity")) with
       | inr token =>
           response =
             {| TokenEndpoint.status := 200;
                TokenEndpoint.body :=
                  TokenEndpoint.JObject [("token", TokenEndpoint.JString token)] |}
       | inl e => response = failure e
       end) /\
    (forall e, TokenEndpoint.json request = inl e -> response = failure e) /\
    (TokenEndpoint.json request = inr TokenEndpoint.JNull ->
     response = failure (Js.Error cannot_destructure)).
Proof.
  intros toJwt cannot_destructure request env response error failure.
  subst response. unfold TokenEndpoint.POST, TokenEndpoint.try_block,
    TokenEndpoint.required_missing, TokenEndpoint.credentials_missing.
  repeat split.
  - intros v Hv Hnn Hm. rewrite Hv in *.
    rewrite destructure_not_null by exact Hnn. now rewrite Hm.
  - intros Hm Hc. destruct (TokenEndpoint.json request) as [e | v]; [discriminate |].
    assert (Hnn : v <> TokenEndpoint.JNull) by (intros ->; discriminate).
    rewrite destructure_not_null by exact Hnn. rewrite Hm. cbv zeta.
    now rewrite Hc.
  - intros v apiKey apiSecret Hv Hm Hc Hk Hs. rewrite Hv in *.
    assert (Hnn : v <> TokenEndpoint.JNull) by (intros ->; discriminate).
    rewrite destructure_not_null by exact Hnn. rewrite Hm. cbv zeta.
    rewrite Hc, Hk, Hs. simpl.
    destruct (toJwt _) as [e | token]; reflexivity.
  - intros e He. now rewrite He.
  - intros Hv. now rewrite Hv.
Qed.

Lemma C8_token_endpoint_witness :
  TokenEndpoint.POST Examples.signer Examples.type_error Examples.anonymous_request Examples.env_ok =
    {| TokenEndpoint.status := 400;
       TokenEndpoint.body :=
         TokenEndpoint.JObject
           [("error",
             TokenEndpoint.JString "roomName and participantIdentity are required")] |} /\
  TokenEndpoint.POST Examples.signer Examples.type_error Examples.complete_request Examples.env_empty =
    {| TokenEndpoint.status := 500;
       TokenEndpoint.body :=
         TokenEndpoint.JObject
           [("error",
             TokenEndpoint.JString
               "Server configuration error - LiveKit credentials not set")] |} /\
  TokenEndpoint.POST Examples.signer Examples.type_error Examples.complete_request Examples.env_ok =
    {| TokenEndpoint.status := 200;
       TokenEndpoint.body :=
         TokenEndpoint.JObject [("token", TokenEndpoint.JString "jwt")] |}.
Proof.
  split; [| split].
  - refine (proj1 (C8_token_endpoint_responses Examples.signer Examples.type_error
                     Examples.anonymous_request Examples.env_ok)
              Examples.anonymous_body eq_refl _ eq_refl).
    discriminate.
  - exact (proj1 (proj2 (C8_token_endpoint_responses Examples.signer Examples.type_error
                     Examples.complete_request Examples.env_empty))
              eq_refl eq_refl).
  - exact (proj1 (proj2 (proj2 (C8_token_endpoint_responses Examples.signer Examples.type_error
                     Examples.complete_request Examples.env_ok)))
              Examples.complete_body "key" "secret"
              eq_refl eq_refl eq_refl eq_refl eq_refl).
Defined.

(** C8 as stated fails on a request whose body is the JSON value [null],
    sent to a server that has its credentials: whether [null] counts as a
    body with a required field missing or not, the answer is neither the
    400 nor the token the specification gives; it is a 500. *)
Lemma C8_counterexample :
  ~ TokenEndpoint.as_specified Examples.signer Examples.type_error
      Examples.null_request Examples.env_ok /\
  TokenEndpoint.credentials_missing Examples.env_ok = false /\
  TokenEndpoint.status
    (TokenEndpoint.POST Examples.signer Examples.type_error Examples.null_request Examples.env_ok) = 500 /\
  TokenEndpoint.is_token_body
    (TokenEndpoint.body
       (TokenEndpoint.POST Examples.signer Examples.type_error Examples.null_request Examples.env_ok)) = false.
Proof.
  repeat split.
  intros [H _]. vm_compute in H. discriminate.
Qed.

(** ** Termination and history *)

Section Termination.
Import VideoChat.

Lemma history_snoc (cs : list Call) (e : SessionHistoryEntry) :
  history (cs ++ [addSessionHistory e]) = history cs ++ [e].
Proof. unfold history. now rewrite omap_app. Qed.

(** [stopRecording] calls no collaborator and does not move the clock. *)
Lemma stopRecording_calls (r : Render) (w : World) :
  calls (stopRecording r w) = calls w /\ now (stopRecording r w) = now w.
Proof.
  unfold stopRecording, MediaRecorder_stop.
  destruct (mediaRecorder (state r)) as [recorder |]; [| now split].
  destruct (recorders w !! recorder) as [rec |]; simpl; [| now split].
  destruct (rec_state rec); now split.
Qed.

Lemma handleEndCall_calls (r : Render) (w : World) :
  calls (handleEndCall r w) =
    calls w ++ [addSessionHistory (entry_of_handleEndCall r w)].
Proof.
  unfold handleEndCall, entry_of_handleEndCall. simpl.
  destruct (isRecording (state r)); [| reflexivity].
  destruct (stopRecording_calls r w) as [-> ->]. reflexivity.
Qed.

Lemma handleDisconnect_calls (r : Render) (w : World) :
  calls (handleDisconnect r w) =
    calls w ++ [addSessionHistory (entry_of_handleDisconnect r w)].
Proof. reflexivity. Qed.

(** [handleDisconnect] does not touch the recording: the recorders, the
    queued tasks and the component's state are as before. *)
Lemma handleDisconnect_keeps_recording (r : Render) (w : World) :
  recorders (handleDisconnect r w) = recorders w /\
  tasks (handleDisconnect r w) = tasks w /\
  w_state (handleDisconnect r w) = w_state w.
Proof. repeat split. Qed.

End Termination.

(** C2, as the code has it. [endCall] a second time succeeds and leaves
    the invite [ended], as the first did, with every field but
    [updatedAt] as the first call left it. The history is another matter:
    [handleEndCall] and [handleDisconnect] each write one entry every
    time they run and neither looks at what was written before, so an
    end-call followed by the disconnect callback, or by a second
    end-call, writes two entries. *)
Theorem C2_one_entry_per_trigger :
  (forall now1 now2 callId db db1,
     CallService.endCall now1 callId db = CallService.Ok db1 ->
     exists db2 d1 d2,
       CallService.endCall now2 callId db1 = CallService.Ok db2 /\
       CallService.status_of db1 callId = Some CallService.ended /\
       CallService.status_of db2 callId = Some CallService.ended /\
       db1 !! callId = Some d1 /\ db2 !! callId = Some d2 /\
       (forall f, f <> "updatedAt" -> d2 !! f = d1 !! f)) /\
  (forall r w,
     VideoChat.history (VideoChat.calls (VideoChat.handleEndCall r w)) =
       VideoChat.history (VideoChat.calls w) ++ [VideoChat.entry_of_handleEndCall r w]) /\
  (forall r w,
     VideoChat.history (VideoChat.calls (VideoChat.handleDisconnect r w)) =
       VideoChat.history (VideoChat.calls w) ++ [VideoChat.entry_of_handleDisconnect r w]) /\
  (forall r r' w,
     List.length (VideoChat.history (VideoChat.calls
        (VideoChat.handleDisconnect r' (VideoChat.handleEndCall r w)))) =
     (List.length (VideoChat.history (VideoChat.calls w)) + 2)%nat) /\
  (forall r r' w,
     List.length (VideoChat.history (VideoChat.calls
        (VideoChat.handleEndCall r' (VideoChat.handleEndCall r w)))) =
     (List.length (VideoChat.history (VideoChat.calls w)) + 2)%nat).
Proof.
  assert (HE : forall r w,
     VideoChat.history (VideoChat.calls (VideoChat.handleEndCall r w)) =
       VideoChat.history (VideoChat.calls w) ++ [VideoChat.entry_of_handleEndCall r w])
    by (intros; rewrite handleEndCall_calls; apply history_snoc).
  assert (HD : forall r w,
     VideoChat.history (VideoChat.calls (VideoChat.handleDisconnect r w)) =
       VideoChat.history (VideoChat.calls w) ++ [VideoChat.entry_of_handleDisconnect r w])
    by (intros; rewrite handleDisconnect_calls; apply history_snoc).
  split; [| split; [exact HE | split; [exact HD | split]]].
  - intros now1 now2 callId db db1 H1.
    apply (perform_Ok (CallService.EndCall now1 callId)) in H1 as (d & Hd & ->).
    simpl in *.
    set (d1 := CallService.patch CallService.ended now1 ∪ d).
    set (db1 := <[callId := d1]> db).
    assert (Hd1 : db1 !! callId = Some d1) by apply lookup_insert_eq.
    exists (<[callId := CallService.patch CallService.ended now2 ∪ d1]> db1),
           d1, (CallService.patch CallService.ended now2 ∪ d1).
    repeat split.
    + unfold CallService.endCall. now apply updateDoc_present.
    + apply (status_of_patched CallService.ended).
    + apply (status_of_patched CallService.ended).
    + exact Hd1.
    + apply lookup_insert_eq.
    + intros f Hf. destruct (decide (f = "status")) as [-> | Hne].
      * subst d1. now rewrite !patch_status.
      * now apply patch_frame.
  - intros r r' w. rewrite HD, HE, !length_app. simpl. lia.
  - intros r r' w. rewrite !HE, !length_app. simpl. lia.
Qed.

Lemma C2_one_entry_witness :
  exists db2 d1 d2,
    CallService.endCall 250 "c1" Examples.db_ended = CallService.Ok db2 /\
    CallService.status_of Examples.db_ended "c1" = Some CallService.ended /\
    CallService.status_of db2 "c1" = Some CallService.ended /\
    Examples.db_ended !! "c1" = Some d1 /\ db2 !! "c1" = Some d2 /\
    (forall f, f <> "updatedAt" -> d2 !! f = d1 !! f).
Proof.
  exact (proj1 C2_one_entry_per_trigger 200 250 "c1"
           Examples.db_ringing Examples.db_ended eq_refl).
Defined.

(** C2 as stated fails: the end-call button followed by the disconnect
    callback leaves two history entries. *)
Lemma C2_counterexample :
  ~ VideoChat.at_most_one_entry Examples.ended_twice.
Proof. unfold VideoChat.at_most_one_entry. vm_compute. lia. Qed.

(** C5. [handleDisconnect] stores the whole seconds between the start
    time and the clock at the moment it runs. [handleEndCall] stores
    [callDuration], the value the interval computed the last time it
    fired before the render the handler comes from: when the call is
    ended 2.2 seconds after the start and the interval last fired at 1.5
    seconds, the entry says 1 and the span is 2. *)
Theorem C5_duration_of_entries :
  (forall r w,
     VideoChat.history (VideoChat.calls (VideoChat.handleDisconnect r w)) =
       VideoChat.history (VideoChat.calls w) ++ [VideoChat.entry_of_handleDisconnect r w] /\
     VideoChat.h_duration (VideoChat.entry_of_handleDisconnect r w) =
       (VideoChat.now w - VideoChat.startTimeRef w) / 1000) /\
  (forall r w,
     VideoChat.history (VideoChat.calls (VideoChat.handleEndCall r w)) =
       VideoChat.history (VideoChat.calls w) ++ [VideoChat.entry_of_handleEndCall r w] /\
     VideoChat.h_duration (VideoChat.entry_of_handleEndCall r w) =
       VideoChat.callDuration (VideoChat.state r)) /\
  (exists e,
     VideoChat.history (VideoChat.calls Examples.ended_between_ticks) = [e] /\
     VideoChat.h_duration e = 1 /\
     VideoChat.h_timestamp e = 2200 /\
     (VideoChat.now Examples.ended_between_ticks
        - VideoChat.startTimeRef Examples.ended_between_ticks) / 1000 = 2).
Proof.
  split; [| split].
  - intros r w. split; [| reflexivity].
    rewrite handleDisconnect_calls. apply history_snoc.
  - intros r w. split; [| reflexivity].
    rewrite handleEndCall_calls. apply history_snoc.
  - eexists. vm_compute. repeat split.
Qed.

(** ** Recording *)

Section Recording.
Import VideoChat.

Lemma ondataavailable_chunks (data : Blob) (w : World) :
  recordedChunks (w_state (ondataavailable data w)) =
    if 0 <? size data then recordedChunks (w_state w) ++ [data]
    else recordedChunks (w_state w).
Proof. unfold ondataavailable. destruct (0 <? size data); reflexivity. Qed.

Lemma deliver_chunks (chunks : list Blob) (w : World) :
  recordedChunks (w_state (deliver chunks w)) =
    recordedChunks (w_state w) ++ List.filter (fun data => 0 <? size data) chunks.
Proof.
  revert w. induction chunks as [| data chunks IH]; intros w; simpl.
  - now rewrite app_nil_r.
  - unfold deliver in *. simpl. rewrite IH, ondataavailable_chunks.
    destruct (0 <? size data); [| reflexivity].
    now rewrite <- app_assoc.
Qed.

End Recording.

(** C7. A chunk handed to [ondataavailable] is appended at the end of the
    chunks when its size is positive; an empty one leaves the world as it
    is; so after a series of chunks the list holds the non-empty ones
    after those it had, in the order they came. *)
Theorem C7_nonempty_chunks_appended :
  (forall data w,
     VideoChat.recordedChunks (VideoChat.w_state (VideoChat.ondataavailable data w)) =
       if 0 <? VideoChat.size data
       then VideoChat.recordedChunks (VideoChat.w_state w) ++ [data]
       else VideoChat.recordedChunks (VideoChat.w_state w)) /\
  (forall data w,
     VideoChat.size data = 0 -> VideoChat.ondataavailable data w = w) /\
  (forall chunks w,
     VideoChat.recordedChunks (VideoChat.w_state (VideoChat.deliver chunks w)) =
       VideoChat.recordedChunks (VideoChat.w_state w) ++
       List.filter (fun data => 0 <? VideoChat.size data) chunks).
Proof.
  split; [exact ondataavailable_chunks | split; [| exact deliver_chunks]].
  intros data w H. unfold VideoChat.ondataavailable. now rewrite H.
Qed.

Lemma C7_nonempty_chunks_witness :
  VideoChat.ondataavailable Examples.empty_chunk Examples.recording_with_chunk =
    Examples.recording_with_chunk.
Proof.
  exact (proj1 (proj2 C7_nonempty_chunks_appended)
           Examples.empty_chunk Examples.recording_with_chunk eq_refl).
Defined.

(** ** The recording flag of an entry *)

Section Flag.
Import VideoChat.

Lemma startRecording_calls (r : Render) (w : World) :
  calls (startRecording r w) = calls w \/
  calls (startRecording r w) = calls w ++ [console_error "Failed to start recording:"].
Proof.
  unfold startRecording. destruct (localStreamRef w); [| now left].
  destruct (recorderThrows w); [now right | now left].
Qed.

Lemma ondataavailable_calls (data : Blob) (w : World) :
  calls (ondataavailable data w) = calls w.
Proof. unfold ondataavailable. destruct (0 <? size data); reflexivity. Qed.

(** The history entries an input can add: the one of [handleEndCall] for
    the end-call button, the one of [handleDisconnect] for the
    disconnect callback, none for anything else. *)
Lemma dispatch_history (i : Input) (w : World) :
  exists new,
    calls (dispatch i w) = calls w ++ new /\
    forall e, In (addSessionHistory e) new ->
      (i = ClickEndCall /\ e = entry_of_handleEndCall (render w) w) \/
      (i = Disconnected /\ e = entry_of_handleDisconnect (render w) w).
Proof.
  assert (none : forall w', calls w' = calls w ->
            exists new, calls w' = calls w ++ new /\
              forall e, In (addSessionHistory e) new ->
                (i = ClickEndCall /\ e = entry_of_handleEndCall (render w) w) \/
                (i = Disconnected /\ e = entry_of_handleDisconnect (render w) w)).
  { intros w' E. exists []. rewrite app_nil_r. split; [exact E | intros e []]. }
  assert (other : forall w' new, calls w' = calls w ++ new ->
            Forall (fun c => is_history c = false) new ->
            exists new, calls w' = calls w ++ new /\
              forall e, In (addSessionHistory e) new ->
                (i = ClickEndCall /\ e = entry_of_handleEndCall (render w) w) \/
                (i = Disconnected /\ e = entry_of_handleDisconnect (render w) w)).
  { intros w' new E F. exists new. split; [exact E |].
    intros e Hin. rewrite Forall_forall in F.
    apply list_elem_of_In in Hin. specialize (F _ Hin). discriminate. }
  destruct i; unfold dispatch; cbv zeta.
  - destruct (getToken _); [| now apply none].
    eapply (other _ [console_log _]); [reflexivity | repeat constructor].
  - destruct (getToken _); [| now apply none].
    eapply (other _ [console_error _; alert _; onEndCall]).
    + simpl. now rewrite <- !app_assoc.
    + repeat constructor.
  - now apply none.
  - now apply none.
  - destruct (_ && _); now apply none.
  - destruct (_ && _); [| now apply none].
    apply none. apply stopRecording_calls.
  - destruct (negb _); [| now apply none].
    exists [addSessionHistory (entry_of_handleEndCall (render w) w)].
    split; [apply handleEndCall_calls |].
    intros e [[= <-] | []]. now left.
  - destruct (_ && _); now apply none.
  - destruct (_ && _); now apply none.
  - destruct (_ && _); [| now apply none].
    destruct (startRecording_calls (render w) w) as [E | E].
    + now apply none.
    + eapply other; [exact E | repeat constructor].
  - destruct (_ && _); now apply none.
  - destruct (negb _); [| now apply none].
    exists [addSessionHistory (entry_of_handleDisconnect (render w) w)].
    split; [apply handleDisconnect_calls |].
    intros e [[= <-] | []]. now right.
  - destruct (tasks w) as [| [recorder] rest]; [now apply none |].
    destruct (recorders _ !! recorder) as [rec |].
    + eapply (other _ [uploadRecording _ _]).
      * simpl. rewrite ondataavailable_calls. reflexivity.
      * repeat constructor.
    + apply none. now rewrite ondataavailable_calls.
  - destruct (awaiting w !! k) as [a |]; [| now apply none].
    destruct a as [| | r |]; destruct s as [[u |] |];
      first [ apply none; reflexivity
            | eapply (other _ [_]); [reflexivity | repeat constructor] ].
Qed.

Lemma emitted_spec (i : Input) (w : World) :
  calls (dispatch i w) = calls w ++ emitted i w.
Proof.
  destruct (dispatch_history i w) as (new & E & _).
  unfold emitted. rewrite E. now rewrite drop_app_length.
Qed.

Lemma emitted_history (i : Input) (w : World) (e : SessionHistoryEntry) :
  In (addSessionHistory e) (emitted i w) ->
  (i = ClickEndCall /\ e = entry_of_handleEndCall (render w) w) \/
  (i = Disconnected /\ e = entry_of_handleDisconnect (render w) w).
Proof.
  destruct (dispatch_history i w) as (new & E & H).
  unfold emitted. rewrite E, drop_app_length. apply H.
Qed.

End Flag.

(** C10. The entry [handleDisconnect] writes has [wasRecorded] false,
    whatever the state of the recording; the entry [handleEndCall] writes
    carries [isRecording] of the render the handler comes from. Of all
    that can happen to the component, only the end-call button writes an
    entry whose flag is true, and it does so when it is pressed during a
    recording. *)
Theorem C10_wasRecorded_flag :
  (forall r w,
     VideoChat.history (VideoChat.calls (VideoChat.handleDisconnect r w)) =
       VideoChat.history (VideoChat.calls w) ++ [VideoChat.entry_of_handleDisconnect r w] /\
     VideoChat.h_wasRecorded (VideoChat.entry_of_handleDisconnect r w) = false) /\
  (forall r w,
     VideoChat.history (VideoChat.calls (VideoChat.handleEndCall r w)) =
       VideoChat.history (VideoChat.calls w) ++ [VideoChat.entry_of_handleEndCall r w] /\
     VideoChat.h_wasRecorded (VideoChat.entry_of_handleEndCall r w) =
       VideoChat.isRecording (VideoChat.state r)) /\
  (forall i w e,
     In (VideoChat.addSessionHistory e) (VideoChat.emitted i w) ->
     VideoChat.h_wasRecorded e = true ->
     i = VideoChat.ClickEndCall) /\
  (exists e,
     VideoChat.history (VideoChat.emitted VideoChat.Disconnected Examples.recording_world)
       = [e] /\
     VideoChat.h_wasRecorded e = false) /\
  (exists e,
     VideoChat.history (VideoChat.emitted VideoChat.ClickEndCall Examples.recording_world)
       = [e] /\
     VideoChat.h_wasRecorded e = true).
Proof.
  split; [| split; [| split; [| split]]].
  - intros r w. split; [| reflexivity].
    rewrite handleDisconnect_calls. apply history_snoc.
  - intros r w. split; [| reflexivity].
    rewrite handleEndCall_calls. apply history_snoc.
  - intros i w e Hin Hflag.
    destruct (emitted_history i w e Hin) as [[-> _] | [_ ->]]; [reflexivity |].
    discriminate.
  - eexists. vm_compute. split; reflexivity.
  - eexists. vm_compute. split; reflexivity.
Qed.

Lemma C10_wasRecorded_witness :
  let e := VideoChat.entry_of_handleEndCall
             (VideoChat.render Examples.recording_world) Examples.recording_world in
  In (VideoChat.addSessionHistory e)
     (VideoChat.emitted VideoChat.ClickEndCall Examples.recording_world) /\
  VideoChat.h_wasRecorded e = true /\
  VideoChat.ClickEndCall = VideoChat.ClickEndCall.
Proof.
  intros e.
  assert (Hin : In (VideoChat.addSessionHistory e)
                  (VideoChat.emitted VideoChat.ClickEndCall Examples.recording_world))
    by (vm_compute; left; reflexivity).
  split; [exact Hin | split; [reflexivity |]].
  exact (proj1 (proj2 (proj2 C10_wasRecorded_flag))
           VideoChat.ClickEndCall Examples.recording_world e Hin eq_refl).
Defined.

(** ** Recording and termination *)

Section Ordering.
Import VideoChat.

Lemma stopRecording_active (r : Render) (w : World) (recorder : nat)
    (rec : MediaRecorder) :
  mediaRecorder (state r) = Some recorder ->
  recorders w !! recorder = Some rec ->
  rec_state rec = recording ->
  stopRecording r w =
    setShowRecordingSettings false
      (setMediaRecorder None
         (setIsRecording false
            (with_tasks (tasks w ++ [RecorderStopped recorder])
               (with_recorders
                  (<[recorder := {| rec_state := inactive;
                                    rec_closure := rec_closure rec |}]> (recorders w))
                  w)))).
Proof.
  intros H1 H2 H3. unfold stopRecording, MediaRecorder_stop.
  rewrite H1, H2. simpl. rewrite H3. reflexivity.
Qed.

(** The component as mounted never holds a stream: nothing assigns
    [localStreamRef] of [VideoChatLiveKit], so none of its runs starts a
    recorder. *)
Lemma never_recorded_dispatch (i : Input) (w : World) :
  never_recorded w -> never_recorded (dispatch i w).
Proof.
  intros (H1 & H2 & H3 & H4 & H5).
  destruct w as [p u [tok cd ir rt rp ss mr rc] st ls nw th rs ts aw cs].
  simpl in *. subst.
  destruct i; unfold dispatch, never_recorded; simpl;
    repeat match goal with
           | |- context [if ?c then _ else _] => destruct c; simpl
           end;
    try (repeat split; reflexivity).
  destruct (aw !! k) as [a |]; [| repeat split; reflexivity].
  destruct a as [| | r |]; destruct s as [[v |] |]; simpl; repeat split; reflexivity.
Qed.

Lemma never_recorded_run (inputs : list Input) (w : World) :
  never_recorded w -> never_recorded (run inputs w).
Proof.
  revert w. induction inputs as [| i inputs IH]; intros w H; [exact H |].
  simpl. apply IH. now apply never_recorded_dispatch.
Qed.

Lemma never_recorded_mounted (p : Props) (u : option User) (t0 : Z)
    (throws : bool) :
  never_recorded (mount p u t0 throws).
Proof. unfold mount. cbv zeta. destruct (getToken _); repeat split. Qed.

Lemma never_recorded_mount (inputs : list Input) (p : Props) (u : option User)
    (t0 : Z) (throws : bool) :
  never_recorded (run inputs (mount p u t0 throws)).
Proof. apply never_recorded_run, never_recorded_mounted. Qed.




(** [handleEndCall] from a render whose recorder is recording: the
    recorder is asked to stop, the task of its [stop] event is queued,
    and the history entry is written, the only call made. This is what
    the handler does on a state of its types; no run of the component
    reaches one ([never_recorded_mount]). *)
Lemma handleEndCall_queues_the_stop (r : Render) (w : World) (recorder : nat)
    (rec : MediaRecorder) :
  isRecording (state r) = true ->
  mediaRecorder (state r) = Some recorder ->
  recorders w !! recorder = Some rec ->
  rec_state rec = recording ->
  calls (handleEndCall r w) =
    calls w ++ [addSessionHistory (entry_of_handleEndCall r w)] /\
  rec_state <$> recorders (handleEndCall r w) !! recorder = Some inactive /\
  tasks (handleEndCall r w) = tasks w ++ [RecorderStopped recorder].
Proof.
  intros H1 H2 H3 H4.
  assert (Hlt : (recorder < List.length (recorders w))%nat)
    by (eapply lookup_lt_Some; exact H3).
  assert (E : handleEndCall r w =
    await handleEndCall_addSessionHistory
      (call (addSessionHistory (entry_of_handleEndCall r w)) (stopRecording r w))).
  { unfold handleEndCall, entry_of_handleEndCall.
    rewrite H1. now destruct (stopRecording_calls r w) as [_ ->]. }
  rewrite E. rewrite (stopRecording_active r w recorder rec H2 H3 H4).
  split; [reflexivity | split; [| reflexivity]].
  simpl. now rewrite list_lookup_insert_eq.
Qed.

(** [startRecording] where there is a stream and the recorder can be
    made: a new recorder is started and becomes the recorder of the
    state, the chunks are emptied, whether or not a recording is active.
    Again a statement about the handler alone. *)
Lemma startRecording_with_stream (r : Render) (w : World) (s : MediaStream) :
  localStreamRef w = Some s ->
  recorderThrows w = false ->
  recorders (startRecording r w) =
    recorders w ++ [ {| rec_state := recording; rec_closure := r |} ] /\
  mediaRecorder (w_state (startRecording r w)) = Some (List.length (recorders w)) /\
  isRecording (w_state (startRecording r w)) = true /\
  recordedChunks (w_state (startRecording r w)) = [] /\
  calls (startRecording r w) = calls w.
Proof.
  intros H1 H2. unfold startRecording. rewrite H1, H2. now repeat split.
Qed.

End Ordering.

(** ** The page: the component with its inner component *)

Section Page.
Import CustomVideoUI.

Lemma effects_component (before : option string) (pg : Page) :
  component (effects before pg) = component pg.
Proof.
  unfold effects. cbv zeta.
  destruct (decide _); [reflexivity |].
  destruct before; unfold cleanup; simpl;
    repeat match goal with
           | |- context [match ?c with _ => _ end] => destruct c; simpl
           end; try reflexivity;
    unfold captureLocalStream; simpl;
    repeat match goal with
           | |- context [if ?c then _ else _] => destruct c; simpl
           end; reflexivity.
Qed.




End Page.




(** * Further properties *)

(** ** CallService: requests and runs *)

Section Requests.
Import CallService.

Lemma after_unfold (r : Request) (db : Calls) :
  after r db =
    match db !! target r with
    | Some d => <[target r := patch (requested r) (stamp r) ∪ d]> db
    | None => db
    end.
Proof.
  unfold after. replace (perform r db) with
    (updateDoc (target r) (patch (requested r) (stamp r)) db) by now destruct r.
  unfold updateDoc. now destruct (db !! target r).
Qed.

Lemma after_lookup_other (r : Request) (db : Calls) (id : string) :
  id <> target r -> after r db !! id = db !! id.
Proof.
  intros H. rewrite after_unfold. destruct (db !! target r); [| reflexivity].
  now rewrite lookup_insert_ne.
Qed.

Lemma after_lookup_target (r : Request) (db : Calls) (d : Doc) :
  db !! target r = Some d ->
  after r db !! target r = Some (patch (requested r) (stamp r) ∪ d).
Proof. intros H. rewrite after_unfold, H. apply lookup_insert_eq. Qed.

(** A later patch hides an earlier one altogether. *)
Lemma patch_absorb (s1 s2 : Status) (t1 t2 : Z) (d : Doc) :
  patch s2 t2 ∪ (patch s1 t1 ∪ d) = patch s2 t2 ∪ d.
Proof.
  apply map_eq. intros f.
  destruct (decide (f = "status")) as [-> | H1].
  - now rewrite !patch_status.
  - destruct (decide (f = "updatedAt")) as [-> | H2].
    + now rewrite !patch_updatedAt.
    + now rewrite !patch_frame.
Qed.

Lemma last_on_In (id : string) (rs : list Request) (r : Request) :
  last_on id rs = Some r -> In r rs /\ target r = id.
Proof.
  induction rs as [| r0 rs IH]; simpl; [discriminate |].
  destruct (last_on id rs) as [r' |].
  - intros [= <-]. destruct (IH eq_refl). split; [now right | assumption].
  - destruct (String.eqb (target r0) id) eqn:E; [| discriminate].
    intros [= <-]. apply String.eqb_eq in E. split; [now left | assumption].
Qed.

(** What a run leaves of an invite: the document it found, under the
    patch of the last request about it. *)
Lemma after_all_lookup (rs : list Request) (db : Calls) (id : string) (d : Doc) :
  db !! id = Some d ->
  after_all rs db !! id =
    Some match last_on id rs with
         | Some r => patch (requested r) (stamp r) ∪ d
         | None => d
         end.
Proof.
  revert db d. induction rs as [| r rs IH]; intros db d Hd; [exact Hd |].
  simpl. destruct (String.eqb (target r) id) eqn:E.
  - apply String.eqb_eq in E. subst id.
    rewrite (IH _ _ (after_lookup_target r db d Hd)).
    destruct (last_on (target r) rs) as [r' |]; [| reflexivity].
    now rewrite patch_absorb.
  - apply String.eqb_neq in E.
    assert (Hd' : after r db !! id = Some d)
      by (rewrite after_lookup_other; [exact Hd | congruence]).
    rewrite (IH _ _ Hd'). now destruct (last_on id rs).
Qed.

Lemma after_all_missing (rs : list Request) (db : Calls) (id : string) :
  db !! id = None -> after_all rs db !! id = None.
Proof.
  revert db. induction rs as [| r rs IH]; intros db Hd; [exact Hd |].
  simpl. apply IH. destruct (decide (id = target r)) as [-> | Hne].
  - now rewrite after_unfold, Hd.
  - now rewrite after_lookup_other.
Qed.

(** A request with another server time is about the same invite and
    asks for the same status. *)
Lemma after_at_other (t : Z) (r : Request) (db : Calls) (id : string) :
  id <> target r -> after (at_time t r) db !! id = db !! id.
Proof. intros H. apply after_lookup_other. now destruct r. Qed.

Lemma after_at_target (t : Z) (r : Request) (db : Calls) (d : Doc) :
  db !! target r = Some d ->
  after (at_time t r) db !! target r = Some (patch (requested r) t ∪ d).
Proof.
  intros H.
  replace (target r) with (target (at_time t r)) in * by now destruct r.
  rewrite (after_lookup_target _ _ d H). now destruct r.
Qed.

Lemma createCall_unfold (autoId : string) (now : Z) (params : CreateParams)
    (db : Calls) :
  createCall autoId now params db =
    ((autoId, roomName (callerId params) (calleeId params)),
     <[autoId := invite_doc now params]> db).
Proof. reflexivity. Qed.

End Requests.

(** X1. What a run of requests leaves of an invite is decided by the last
    request about it: the status that request asked for and its time, over
    the fields the invite had. Requests about an invite that does not exist
    never create it. *)
Theorem run_keeps_last_request :
  forall rs db callId,
    match db !! callId with
    | Some d =>
        exists d',
          CallService.after_all rs db !! callId = Some d' /\
          (forall f, f <> "status" -> f <> "updatedAt" -> d' !! f = d !! f) /\
          match CallService.last_on callId rs with
          | Some r =>
              In r rs /\ CallService.target r = callId /\
              d' !! "status" = Some (CallService.FStatus (CallService.requested r)) /\
              d' !! "updatedAt" = Some (CallService.FTimestamp (CallService.stamp r))
          | None => d' = d
          end
    | None => CallService.after_all rs db !! callId = None
    end.
Proof.
  intros rs db callId. destruct (db !! callId) as [d |] eqn:Hd.
  - rewrite (after_all_lookup rs db callId d Hd).
    destruct (CallService.last_on callId rs) as [r |] eqn:El.
    + eexists. split; [reflexivity |]. split; [| repeat split].
      * intros f H1 H2. now apply patch_frame.
      * now apply (last_on_In callId).
      * now apply (last_on_In callId rs).
      * apply patch_status.
      * apply patch_updatedAt.
    + exists d. now repeat split.
  - now apply after_all_missing.
Qed.

(** X2. An invite made by [createCall] keeps its creation time and its
    room through any run of requests, and as long as no request carries
    a server time earlier than the creation, [updatedAt] is never earlier
    than [createdAt]. *)
Theorem created_invite_timestamps :
  forall autoId now params db rs,
    Forall (fun r => now <= CallService.stamp r) rs ->
    let '((callId, roomId), db') := CallService.createCall autoId now params db in
    exists d updated,
      CallService.after_all rs db' !! callId = Some d /\
      d !! "createdAt" = Some (CallService.FTimestamp now) /\
      d !! "roomId" = Some (CallService.FString roomId) /\
      d !! "updatedAt" = Some (CallService.FTimestamp updated) /\
      now <= updated.
Proof.
  intros autoId now params db rs Hrs. rewrite createCall_unfold.
  rewrite (after_all_lookup rs _ autoId (CallService.invite_doc now params))
    by apply lookup_insert_eq.
  destruct (CallService.last_on autoId rs) as [r |] eqn:El.
  - exists (CallService.patch (CallService.requested r) (CallService.stamp r) ∪
            CallService.invite_doc now params), (CallService.stamp r).
    split; [reflexivity |]. repeat split.
    apply last_on_In in El as [Hin _].
    rewrite Forall_forall in Hrs. apply Hrs. now apply list_elem_of_In.
  - exists (CallService.invite_doc now params), now.
    split; [reflexivity |]. repeat split. lia.
Qed.

Lemma created_invite_timestamps_witness :
  exists d updated,
    CallService.after_all
      [CallService.AcceptCall 150 "c1"; CallService.EndCall 200 "c1"]
      Examples.db_ringing !! "c1" = Some d /\
    d !! "createdAt" = Some (CallService.FTimestamp 100) /\
    d !! "roomId" = Some (CallService.FString "u1_u2") /\
    d !! "updatedAt" = Some (CallService.FTimestamp updated) /\
    100 <= updated.
Proof.
  refine (created_invite_timestamps "c1" 100 Examples.u1_calls_u2 ∅
            [CallService.AcceptCall 150 "c1"; CallService.EndCall 200 "c1"] _).
  repeat constructor; simpl; lia.
Defined.

(** X3. Requests about two different invites do not interfere. Whichever
    of the two the server commits first, at time [t1], and whichever
    second, at time [t2], the collection ends up the same but for the
    times: every invite has the same status and the same fields other
    than [updatedAt], the invites the requests are not about are
    untouched, and each of the two invites bears the time at which its
    own request was committed. *)
Theorem requests_on_different_invites_commute :
  forall r1 r2 t1 t2 db,
    CallService.target r1 <> CallService.target r2 ->
    let one :=
      CallService.after (CallService.at_time t2 r2)
        (CallService.after (CallService.at_time t1 r1) db) in
    let other :=
      CallService.after (CallService.at_time t2 r1)
        (CallService.after (CallService.at_time t1 r2) db) in
    (forall id, CallService.status_of one id = CallService.status_of other id) /\
    (forall id f,
       f <> "updatedAt" ->
       one !! id ≫= (fun d => d !! f) = other !! id ≫= (fun d => d !! f)) /\
    (forall id,
       id <> CallService.target r1 -> id <> CallService.target r2 ->
       one !! id = db !! id /\ other !! id = db !! id) /\
    (forall d,
       db !! CallService.target r1 = Some d ->
       one !! CallService.target r1 =
         Some (CallService.patch (CallService.requested r1) t1 ∪ d) /\
       other !! CallService.target r1 =
         Some (CallService.patch (CallService.requested r1) t2 ∪ d)) /\
    (forall d,
       db !! CallService.target r2 = Some d ->
       one !! CallService.target r2 =
         Some (CallService.patch (CallService.requested r2) t2 ∪ d) /\
       other !! CallService.target r2 =
         Some (CallService.patch (CallService.requested r2) t1 ∪ d)).
Proof.
  intros r1 r2 t1 t2 db Hne one other.
  assert (Hne' : CallService.target r2 <> CallService.target r1) by congruence.
  assert (Hother : forall id,
            id <> CallService.target r1 -> id <> CallService.target r2 ->
            one !! id = db !! id /\ other !! id = db !! id).
  { intros id H1 H2. subst one other.
    now rewrite !after_at_other by assumption. }
  assert (H1 : forall d,
            db !! CallService.target r1 = Some d ->
            one !! CallService.target r1 =
              Some (CallService.patch (CallService.requested r1) t1 ∪ d) /\
            other !! CallService.target r1 =
              Some (CallService.patch (CallService.requested r1) t2 ∪ d)).
  { intros d Hd. subst one other. split.
    - rewrite after_at_other by exact Hne. now apply after_at_target.
    - apply after_at_target. now rewrite after_at_other by exact Hne. }
  assert (H2 : forall d,
            db !! CallService.target r2 = Some d ->
            one !! CallService.target r2 =
              Some (CallService.patch (CallService.requested r2) t2 ∪ d) /\
            other !! CallService.target r2 =
              Some (CallService.patch (CallService.requested r2) t1 ∪ d)).
  { intros d Hd. subst one other. split.
    - apply after_at_target. now rewrite after_at_other by exact Hne'.
    - rewrite after_at_other by exact Hne'. now apply after_at_target. }
  assert (Hmiss : forall id ra rb ta tb,
            db !! id = None ->
            CallService.after (CallService.at_time tb rb)
              (CallService.after (CallService.at_time ta ra) db) !! id = None).
  { intros id ra rb ta tb Hd.
    change (CallService.after_all
              [CallService.at_time ta ra; CallService.at_time tb rb] db !! id = None).
    now apply after_all_missing. }
  assert (Hfield : forall id f,
            f <> "updatedAt" ->
            one !! id ≫= (fun d => d !! f) = other !! id ≫= (fun d => d !! f)).
  { intros id f Hf.
    destruct (db !! id) as [d |] eqn:Hd.
    - destruct (decide (id = CallService.target r1)) as [-> | N1].
      + destruct (H1 d Hd) as [-> ->]. simpl.
        destruct (decide (f = "status")) as [-> | Hst].
        * now rewrite !patch_status.
        * now rewrite !patch_frame.
      + destruct (decide (id = CallService.target r2)) as [-> | N2].
        * destruct (H2 d Hd) as [-> ->]. simpl.
          destruct (decide (f = "status")) as [-> | Hst].
          -- now rewrite !patch_status.
          -- now rewrite !patch_frame.
        * destruct (Hother id N1 N2) as [-> ->]. reflexivity.
    - subst one other. now rewrite !Hmiss by exact Hd. }
  split; [| split; [exact Hfield | split; [exact Hother | split; [exact H1 | exact H2]]]].
  intros id. unfold CallService.status_of.
  specialize (Hfield id "status" ltac:(discriminate)). revert Hfield.
  destruct (one !! id), (other !! id); simpl; intros Hfield;
    first [reflexivity | now rewrite Hfield | now rewrite <- Hfield].
Qed.

Lemma requests_commute_witness :
  let one :=
    CallService.after (CallService.EndCall 160 "c2")
      (CallService.after (CallService.AcceptCall 150 "c1") Examples.db_two) in
  let other :=
    CallService.after (CallService.AcceptCall 160 "c1")
      (CallService.after (CallService.EndCall 150 "c2") Examples.db_two) in
  (forall id, CallService.status_of one id = CallService.status_of other id) /\
  CallService.status_of one "c1" = Some CallService.accepted /\
  CallService.status_of one "c2" = Some CallService.ended /\
  one !! "c1" ≫= (fun d => d !! "updatedAt") = Some (CallService.FTimestamp 150) /\
  other !! "c1" ≫= (fun d => d !! "updatedAt") = Some (CallService.FTimestamp 160).
Proof.
  intros one other.
  pose proof (requests_on_different_invites_commute
                (CallService.AcceptCall 0 "c1") (CallService.EndCall 0 "c2")
                150 160 Examples.db_two ltac:(discriminate)) as (Hs & _).
  split; [exact Hs |]. vm_compute. repeat split.
Defined.

(** ** CallService: the listener *)

Section Listener.
Import CallService.

Lemma incoming_true (userId : string) (d : Doc) :
  incoming userId d = true <->
  d !! "calleeId" = Some (FString userId) /\ d !! "status" = Some (FStatus ringing).
Proof.
  unfold incoming. rewrite andb_true_iff, !bool_decide_eq_true. reflexivity.
Qed.

Lemma query_lookup (userId : string) (db : Calls) (id : string) (d : Doc) :
  query userId db !! id = Some d <->
  db !! id = Some d /\
  d !! "calleeId" = Some (FString userId) /\ d !! "status" = Some (FStatus ringing).
Proof.
  unfold query. rewrite map_lookup_filter_Some. simpl.
  now rewrite incoming_true.
Qed.

Lemma added_elem (previous result : Calls) (id : string) (d : Doc) :
  (id, d) ∈ added previous result <->
  result !! id = Some d /\ previous !! id = None.
Proof.
  unfold added. rewrite elem_of_map_to_list, map_lookup_filter_Some. reflexivity.
Qed.

Lemma added_nil (previous result : Calls) :
  (forall id d, result !! id = Some d -> is_Some (previous !! id)) ->
  added previous result = [].
Proof.
  intros H. unfold added. apply map_to_list_empty_iff, map_empty. intros id.
  apply map_lookup_filter_None. right. intros d Hd Hp. simpl in Hp.
  destruct (H id d Hd) as [x Hx]. congruence.
Qed.

(** A request takes invites out of the result of a query, never into it. *)
Lemma query_after (userId : string) (r : Request) (db : Calls)
    (id : string) (d : Doc) :
  query userId (after r db) !! id = Some d -> query userId db !! id = Some d.
Proof.
  rewrite !query_lookup. intros (Hd & Hc & Hs).
  destruct (decide (id = target r)) as [-> | Hne].
  - rewrite after_unfold in Hd.
    destruct (db !! target r) as [d0 |] eqn:E; [| now rewrite E in Hd].
    rewrite lookup_insert_eq in Hd. injection Hd as <-.
    rewrite patch_status in Hs. injection Hs as Hs.
    now destruct r.
  - rewrite after_lookup_other in Hd by exact Hne. now repeat split.
Qed.

End Listener.

(** X5. On its first snapshot the listener calls back once for each
    invite of the collection whose callee is the user and whose status is
    [ringing], and for nothing else. *)
Theorem listener_first_snapshot :
  forall userId today db,
    let invites := fst (CallService.listenIncoming userId today ∅ db) in
    (forall invite,
       In invite invites <->
       exists id d,
         db !! id = Some d /\
         d !! "calleeId" = Some (CallService.FString userId) /\
         d !! "status" = Some (CallService.FStatus CallService.ringing) /\
         invite = CallService.invite_of today id d) /\
    NoDup (List.map CallService.inv_id invites) /\
    List.length invites = size (CallService.query userId db).
Proof.
  intros userId today db invites. subst invites. unfold CallService.listenIncoming.
  cbn [fst].
  assert (Hall : CallService.added ∅ (CallService.query userId db) =
                 map_to_list (CallService.query userId db)).
  { unfold CallService.added. f_equal. apply map_filter_id.
    intros id d _. apply lookup_empty. }
  rewrite Hall. split; [| split].
  - intros invite. rewrite <- list_elem_of_In, list_elem_of_fmap. split.
    + intros ([id d] & -> & Hin). apply elem_of_map_to_list, query_lookup in Hin.
      exists id, d. simpl. tauto.
    + intros (id & d & Hd & Hc & Hs & ->). exists (id, d). split; [reflexivity |].
      apply elem_of_map_to_list, query_lookup. tauto.
  - rewrite List.map_map. simpl. apply NoDup_fst_map_to_list.
  - rewrite length_map. apply length_map_to_list.
Qed.

(** X6. When [createCall] has stored an invite under a fresh id, the
    callee's listener is called back once, with that invite and no
    other: its id, the room of the two identities (the smaller first in
    the order of code units), the names and the status [ringing]. The
    dates depend on where the listener runs. On a client other than the
    one that called [createCall] the listener hears of the invite when
    the server has stored it, and both dates are the server's time. On
    the client that called [createCall] the listener hears of it at
    once, with the two dates pending: both are then the listener's
    current date, and when the server's time arrives the document is
    changed, not added, and the listener is not called again. The
    listener of any other user is not called at all. *)
Theorem created_invite_reaches_the_callee :
  forall autoId now params db today,
    db !! autoId = None ->
    let caller := CallService.callerId params in
    let callee := CallService.calleeId params in
    let invite created updated :=
      {| CallService.inv_id := autoId;
         CallService.inv_roomId :=
           Some (CallService.FString
                   (if Js.lt callee caller then callee +:+ "_" +:+ caller
                    else caller +:+ "_" +:+ callee));
         CallService.inv_callerId := Some (CallService.FString caller);
         CallService.inv_callerName :=
           Some (CallService.FString (CallService.callerName params));
         CallService.inv_calleeId := Some (CallService.FString callee);
         CallService.inv_calleeName :=
           Some (CallService.FString (CallService.calleeName params));
         CallService.inv_status := Some (CallService.FStatus CallService.ringing);
         CallService.inv_createdAt := created;
         CallService.inv_updatedAt := updated |} in
    let stored := snd (CallService.createCall autoId now params db) in
    let pending := <[autoId := CallService.pending_doc params]> db in
    fst (fst (CallService.createCall autoId now params db)) = autoId /\
    fst (CallService.listenIncoming callee today (CallService.query callee db) stored) =
      [invite now now] /\
    fst (CallService.listenIncoming callee today (CallService.query callee db) pending) =
      [invite today today] /\
    fst (CallService.listenIncoming callee today (CallService.query callee pending) stored) =
      [] /\
    forall userId,
      userId <> callee ->
      fst (CallService.listenIncoming userId today (CallService.query userId db) stored) =
        [] /\
      fst (CallService.listenIncoming userId today (CallService.query userId db) pending) =
        [].
Proof.
  intros autoId now params db today Hfresh caller callee invite stored pending.
  subst stored. rewrite createCall_unfold. cbn [fst snd].
  assert (Hone : forall d,
    d !! "calleeId" = Some (CallService.FString callee) ->
    d !! "status" = Some (CallService.FStatus CallService.ringing) ->
    CallService.added (CallService.query callee db)
      (CallService.query callee (<[autoId := d]> db)) = [(autoId, d)]).
  { intros d Hc Hs. unfold CallService.added. rewrite <- map_to_list_singleton. f_equal.
    apply map_eq. intros id. destruct (decide (id = autoId)) as [-> | Hne].
    - rewrite lookup_singleton_eq. apply map_lookup_filter_Some. split.
      + apply query_lookup. rewrite lookup_insert_eq. now repeat split.
      + simpl. apply eq_None_not_Some. intros [d' Hd].
        apply query_lookup in Hd as [Hd _]. congruence.
    - rewrite lookup_singleton_ne by congruence.
      apply map_lookup_filter_None. right. intros d' Hd Hp. simpl in Hp.
      apply query_lookup in Hd as (Hd & Hc' & Hs').
      rewrite lookup_insert_ne in Hd by congruence.
      assert (Hq : CallService.query callee db !! id = Some d')
        by (apply query_lookup; tauto).
      congruence. }
  assert (Hnone : forall userId d,
    userId <> callee ->
    d !! "calleeId" = Some (CallService.FString callee) ->
    CallService.added (CallService.query userId db)
      (CallService.query userId (<[autoId := d]> db)) = []).
  { intros userId d Hne Hc. apply added_nil.
    intros id d' Hd. apply query_lookup in Hd as (Hd & Hc' & Hs').
    destruct (decide (id = autoId)) as [-> | Hid].
    - rewrite lookup_insert_eq in Hd. injection Hd as <-.
      exfalso. apply Hne. congruence.
    - rewrite lookup_insert_ne in Hd by congruence.
      exists d'. apply query_lookup. tauto. }
  unfold CallService.listenIncoming. cbn [fst].
  split; [reflexivity |]. split; [| split; [| split]].
  - rewrite (Hone (CallService.invite_doc now params)) by reflexivity.
    cbn [List.map fst snd]. unfold invite. subst caller callee.
    rewrite <- roomName_unfold. reflexivity.
  - subst pending. rewrite (Hone (CallService.pending_doc params)) by reflexivity.
    cbn [List.map fst snd]. unfold invite. subst caller callee.
    rewrite <- roomName_unfold. reflexivity.
  - rewrite added_nil; [reflexivity |].
    intros id d Hd. apply query_lookup in Hd as (Hd & Hc & Hs).
    destruct (decide (id = autoId)) as [-> | Hid].
    + exists (CallService.pending_doc params). apply query_lookup.
      subst pending. rewrite lookup_insert_eq. now repeat split.
    + rewrite lookup_insert_ne in Hd by congruence.
      exists d. apply query_lookup. subst pending.
      rewrite lookup_insert_ne by congruence. tauto.
  - intros userId Hne. subst pending.
    rewrite (Hnone userId (CallService.invite_doc now params)) by (assumption || reflexivity).
    rewrite (Hnone userId (CallService.pending_doc params)) by (assumption || reflexivity).
    now split.
Qed.

Lemma created_invite_reaches_the_callee_witness :
  let invite created updated :=
    {| CallService.inv_id := "c2";
       CallService.inv_roomId := Some (CallService.FString "u2_u3");
       CallService.inv_callerId := Some (CallService.FString "u3");
       CallService.inv_callerName := Some (CallService.FString "Cid");
       CallService.inv_calleeId := Some (CallService.FString "u2");
       CallService.inv_calleeName := Some (CallService.FString "Bob");
       CallService.inv_status := Some (CallService.FStatus CallService.ringing);
       CallService.inv_createdAt := created;
       CallService.inv_updatedAt := updated |} in
  let pending := <["c2" := CallService.pending_doc Examples.u3_calls_u2]> Examples.db_ringing in
  CallService.query "u2" Examples.db_ringing !! "c1" <> None /\
  fst (CallService.listenIncoming "u2" 500 (CallService.query "u2" Examples.db_ringing)
         Examples.db_two) = [invite 120 120] /\
  fst (CallService.listenIncoming "u2" 500 (CallService.query "u2" Examples.db_ringing)
         pending) = [invite 500 500] /\
  fst (CallService.listenIncoming "u2" 500 (CallService.query "u2" pending)
         Examples.db_two) = [].
Proof.
  intros invite pending.
  split; [vm_compute; discriminate |].
  destruct (created_invite_reaches_the_callee "c2" 120 Examples.u3_calls_u2
              Examples.db_ringing 500 eq_refl) as (_ & H1 & H2 & H3 & _).
  split; [exact H1 |]. split; [exact H2 | exact H3].
Defined.

(** X7. Accepting or ending a call never calls a listener back: whatever
    the request and the user, the snapshot that follows it adds nothing to
    what the listener had, and what the listener has can only shrink. *)
Theorem requests_never_call_back :
  forall userId today r db,
    fst (CallService.listenIncoming userId today
           (CallService.query userId db) (CallService.after r db)) = [] /\
    snd (CallService.listenIncoming userId today
           (CallService.query userId db) (CallService.after r db))
      ⊆ CallService.query userId db.
Proof.
  intros userId today r db. unfold CallService.listenIncoming. cbn [fst snd]. split.
  - rewrite added_nil; [reflexivity |].
    intros id d Hd. exists d. now apply (query_after userId r).
  - apply map_subseteq_spec. intros id d. apply query_after.
Qed.

(** ** The token endpoint: all its answers *)

Section Answers.
Import TokenEndpoint.

Variable toJwt : AccessToken -> Js.Exn + string.
Variable cannot_destructure : string.

(** The four ways through the handler. *)
Lemma POST_cases (request : NextRequest) (env : Env) :
  let response := POST toJwt cannot_destructure request env in
  (exists v,
     json request = inr v /\ v <> JNull /\ required_missing request = true /\
     response = NextResponse_json
       (JObject [("error", JString "roomName and participantIdentity are required")])
       (Some 400)) \/
  (exists v,
     json request = inr v /\ required_missing request = false /\
     credentials_missing env = true /\
     response = NextResponse_json
       (JObject [("error",
          JString "Server configuration error - LiveKit credentials not set")])
       (Some 500)) \/
  (exists v apiKey apiSecret token,
     json request = inr v /\ required_missing request = false /\
     LIVEKIT_API_KEY env = Some apiKey /\ apiKey <> "" /\
     LIVEKIT_API_SECRET env = Some apiSecret /\ apiSecret <> "" /\
     toJwt (access_token apiKey apiSecret (prop v "roomName")
              (prop v "participantName") (prop v "participantIdentity")) = inr token /\
     response = NextResponse_json (JObject [("token", JString token)]) None) \/
  (exists e,
     (json request = inl e \/
      (json request = inr JNull /\ e = Js.Error cannot_destructure) \/
      (required_missing request = false /\ credentials_missing env = false)) /\
     response = NextResponse_json
       (JObject [("error", JString "Failed to generate token");
                 ("details", JString (details_of e))])
       (Some 500)).
Proof.
  unfold POST, try_block, required_missing, credentials_missing.
  destruct (json request) as [e | v] eqn:Ej.
  { right; right; right. exists e. split; [now left | reflexivity]. }
  assert (Hv : v = JNull \/ v <> JNull)
    by (destruct v; [now left | right; discriminate ..]).
  destruct Hv as [-> | Hnn].
  { right; right; right. exists (Js.Error cannot_destructure).
    split; [right; left; now split | reflexivity]. }
  rewrite (destructure_not_null cannot_destructure v Hnn).
  destruct (negb (truthy (prop v "roomName")) ||
            negb (truthy (prop v "participantIdentity"))) eqn:Em.
  { left. exists v. now repeat split. }
  cbv zeta.
  destruct (negb (nonempty (LIVEKIT_API_KEY env)) ||
            negb (nonempty (LIVEKIT_API_SECRET env))) eqn:Ec.
  { right; left. exists v. now repeat split. }
  apply orb_false_iff in Ec as [Ek Es].
  apply negb_false_iff in Ek, Es.
  destruct (LIVEKIT_API_KEY env) as [apiKey |] eqn:Hk; [| discriminate].
  destruct (LIVEKIT_API_SECRET env) as [apiSecret |] eqn:Hs; [| discriminate].
  simpl in Ek, Es. apply negb_true_iff in Ek, Es.
  apply String.eqb_neq in Ek, Es. simpl default.
  destruct (toJwt _) as [e | token] eqn:Et.
  - right; right; right. exists e. split; [| reflexivity].
    right; right. now split.
  - right; right; left. exists v, apiKey, apiSecret, token. now repeat split.
Qed.

End Answers.

(** X8. The endpoint has three statuses and two shapes of body. It
    answers 200 exactly with a token body, and 400 or 500 with an error
    body and never a token; it answers 400 exactly when the body parsed
    to a value other than [null] that lacks a truthy [roomName] or
    [participantIdentity], whether or not the server has its
    credentials. *)
Theorem token_endpoint_answers :
  forall toJwt cannot_destructure request env,
    let response := TokenEndpoint.POST toJwt cannot_destructure request env in
    ((TokenEndpoint.status response = 200 /\
      TokenEndpoint.is_token_body (TokenEndpoint.body response) = true /\
      TokenEndpoint.is_error_body (TokenEndpoint.body response) = false) \/
     ((TokenEndpoint.status response = 400 \/ TokenEndpoint.status response = 500) /\
      TokenEndpoint.is_error_body (TokenEndpoint.body response) = true /\
      TokenEndpoint.is_token_body (TokenEndpoint.body response) = false)) /\
    (TokenEndpoint.status response = 400 <->
     exists v,
       TokenEndpoint.json request = inr v /\ v <> TokenEndpoint.JNull /\
       TokenEndpoint.required_missing request = true).
Proof.
  intros toJwt m request env response.
  destruct (POST_cases toJwt m request env)
    as [(v & Hj & Hnn & Hm & E) | [(v & Hj & Hm & Hc & E) |
        [(v & k & s & t & Hj & Hm & _ & _ & _ & _ & _ & E) | (e & H & E)]]];
    fold response in E; rewrite E; simpl; (split; [auto 6 |]).
  - split; [intros _; now exists v | reflexivity].
  - split; [discriminate |]. intros (v' & _ & _ & Hm'). congruence.
  - split; [discriminate |]. intros (v' & _ & _ & Hm'). congruence.
  - split; [discriminate |]. intros (v' & Hj' & Hnn' & Hm').
    destruct H as [H | [[H _] | [H _]]]; congruence.
Qed.

(** X9. Every token the endpoint returns was signed for what the request
    asked: the identity is the request's [participantIdentity], the grant
    is for the request's [roomName], both truthy; the name is the
    request's [participantName] when that is truthy and the identity
    otherwise, so it is truthy too; the single grant allows joining,
    publishing, subscribing and publishing data; the key and the secret
    are the server's, both non-empty. *)
Theorem token_is_signed_for_the_request :
  forall toJwt cannot_destructure request env token,
    TokenEndpoint.body (TokenEndpoint.POST toJwt cannot_destructure request env) =
      TokenEndpoint.JObject [("token", TokenEndpoint.JString token)] ->
    exists v signed grant,
      TokenEndpoint.json request = inr v /\
      toJwt signed = inr token /\
      TokenEndpoint.identity signed = TokenEndpoint.prop v "participantIdentity" /\
      TokenEndpoint.truthy (TokenEndpoint.identity signed) = true /\
      TokenEndpoint.name signed =
        (if TokenEndpoint.truthy (TokenEndpoint.prop v "participantName")
         then TokenEndpoint.prop v "participantName"
         else TokenEndpoint.prop v "participantIdentity") /\
      TokenEndpoint.truthy (TokenEndpoint.name signed) = true /\
      TokenEndpoint.grants signed = [grant] /\
      TokenEndpoint.room grant = TokenEndpoint.prop v "roomName" /\
      TokenEndpoint.truthy (TokenEndpoint.room grant) = true /\
      TokenEndpoint.roomJoin grant = true /\
      TokenEndpoint.canPublish grant = true /\
      TokenEndpoint.canSubscribe grant = true /\
      TokenEndpoint.canPublishData grant = true /\
      Some (TokenEndpoint.apiKey signed) = TokenEndpoint.LIVEKIT_API_KEY env /\
      Some (TokenEndpoint.apiSecret signed) = TokenEndpoint.LIVEKIT_API_SECRET env /\
      TokenEndpoint.apiKey signed <> "" /\ TokenEndpoint.apiSecret signed <> "".
Proof.
  intros toJwt m request env token Hbody.
  destruct (POST_cases toJwt m request env)
    as [(v & Hj & Hnn & Hm & E) | [(v & Hj & Hm & Hc & E) |
        [(v & k & s & t & Hj & Hm & Hk & Hkn & Hs & Hsn & Ht & E) | (e & H & E)]]];
    rewrite E in Hbody; try discriminate.
  injection Hbody as ->.
  unfold TokenEndpoint.required_missing in Hm. rewrite Hj in Hm.
  apply orb_false_iff in Hm as [Hr Hi]. apply negb_false_iff in Hr, Hi.
  eexists v, _, _. split; [exact Hj |]. split; [exact Ht |]. simpl.
  repeat split; try assumption; try (symmetry; assumption).
  unfold TokenEndpoint.or_else.
  destruct (TokenEndpoint.truthy (TokenEndpoint.prop v "participantName")) eqn:En;
    assumption.
Qed.

Lemma token_is_signed_witness :
  exists v signed grant,
    TokenEndpoint.json Examples.complete_request = inr v /\
    Examples.signer signed = inr "jwt" /\
    TokenEndpoint.identity signed = TokenEndpoint.prop v "participantIdentity" /\
    TokenEndpoint.truthy (TokenEndpoint.identity signed) = true /\
    TokenEndpoint.name signed =
      (if TokenEndpoint.truthy (TokenEndpoint.prop v "participantName")
       then TokenEndpoint.prop v "participantName"
       else TokenEndpoint.prop v "participantIdentity") /\
    TokenEndpoint.truthy (TokenEndpoint.name signed) = true /\
    TokenEndpoint.grants signed = [grant] /\
    TokenEndpoint.room grant = TokenEndpoint.prop v "roomName" /\
    TokenEndpoint.truthy (TokenEndpoint.room grant) = true /\
    TokenEndpoint.roomJoin grant = true /\
    TokenEndpoint.canPublish grant = true /\
    TokenEndpoint.canSubscribe grant = true /\
    TokenEndpoint.canPublishData grant = true /\
    Some (TokenEndpoint.apiKey signed) = TokenEndpoint.LIVEKIT_API_KEY Examples.env_ok /\
    Some (TokenEndpoint.apiSecret signed) =
      TokenEndpoint.LIVEKIT_API_SECRET Examples.env_ok /\
    TokenEndpoint.apiKey signed <> "" /\ TokenEndpoint.apiSecret signed <> "".
Proof.
  exact (token_is_signed_for_the_request Examples.signer Examples.type_error
           Examples.complete_request Examples.env_ok "jwt" eq_refl).
Defined.

(** ** Joining: the component against the endpoint *)

Section Joining.
Import VideoChat.

Lemma join_nonempty (a b : string) : Js.join "_" (Js.sort [a; b]) <> "".
Proof.
  rewrite sort_pair. unfold Js.join.
  destruct (Js.lt b a); simpl; [destruct b | destruct a]; discriminate.
Qed.

Lemma getToken_user (r : Render) (u : User) :
  user r = Some u -> uid u <> "" ->
  getToken r =
    Some {| roomName := Js.join "_" (Js.sort [uid u; partnerId (props r)]);
            participantIdentity := uid u;
            participantName := Js.or_opt (displayName u) (uid u) |}.
Proof.
  intros Hu Hne. unfold getToken. rewrite Hu.
  destruct (String.eqb (uid u) "") eqn:E; [| reflexivity].
  apply String.eqb_eq in E. contradiction.
Qed.

Lemma or_opt_nonempty (x : option string) (y : string) :
  y <> "" -> Js.or_opt x y <> "".
Proof.
  intros Hy. unfold Js.or_opt, Js.or_str. destruct x as [s |]; [| exact Hy].
  destruct (String.eqb s "") eqn:E; [exact Hy |]. now apply String.eqb_neq.
Qed.

Lemma truthy_string (s : string) :
  s <> "" -> TokenEndpoint.truthy (Some (TokenEndpoint.JString s)) = true.
Proof. intros H. simpl. apply negb_true_iff. now apply String.eqb_neq. Qed.

End Joining.

(** X10. The component of a signed-in user logs, when it mounts, the
    room it asks a token for, the room of the user and the partner. The
    request it sends is never answered 400: it carries a room, an
    identity and a name, none empty. Against a server without
    credentials the component logs the error, alerts and calls
    [onEndCall], and its token stays empty; against a server with
    credentials the endpoint signs a token for the room of the two
    identities, the user's id and the user's display name or else id,
    the component's token becomes the signed one and the component logs
    that it has it; when the signing throws, the component logs the
    error, alerts and calls [onEndCall]. *)
Theorem joining_with_a_user :
  forall toJwt cannot_destructure env w u,
    VideoChat.w_user w = Some u ->
    VideoChat.uid u <> "" ->
    let room := CallService.roomName (VideoChat.uid u)
                  (VideoChat.partnerId (VideoChat.w_props w)) in
    let name := Js.or_opt (VideoChat.displayName u) (VideoChat.uid u) in
    let failed :=
      VideoChat.call VideoChat.onEndCall
        (VideoChat.call
           (VideoChat.alert
              "Failed to join video call. Please check your LiveKit credentials.")
           (VideoChat.call (VideoChat.console_error "âŒ LiveKit token error:") w)) in
    exists t,
      VideoChat.getToken (VideoChat.render w) = Some t /\
      VideoChat.roomName t = room /\ room <> "" /\ name <> "" /\
      (forall t0 throws,
         VideoChat.calls
           (VideoChat.mount (VideoChat.w_props w) (Some u) t0 throws) =
           [VideoChat.console_log ["ðŸŽ¯ Fetching LiveKit token for room:"; room]]) /\
      TokenEndpoint.status
        (TokenEndpoint.POST toJwt cannot_destructure (Join.request_of t) env) <> 400 /\
      (TokenEndpoint.credentials_missing env = true ->
       Join.join toJwt cannot_destructure env w = failed) /\
      (forall apiKey apiSecret,
         TokenEndpoint.LIVEKIT_API_KEY env = Some apiKey -> apiKey <> "" ->
         TokenEndpoint.LIVEKIT_API_SECRET env = Some apiSecret -> apiSecret <> "" ->
         match toJwt (TokenEndpoint.access_token apiKey apiSecret
                        (Some (TokenEndpoint.JString room))
                        (Some (TokenEndpoint.JString name))
                        (Some (TokenEndpoint.JString (VideoChat.uid u)))) with
         | inr token =>
             Join.join toJwt cannot_destructure env w =
               VideoChat.call (VideoChat.console_log ["âœ… LiveKit token received"])
                 (VideoChat.setToken token w)
         | inl _ => Join.join toJwt cannot_destructure env w = failed
         end).
Proof.
  intros toJwt m env w u Hu Hne room name failed.
  assert (Hroom : room <> "") by apply join_nonempty.
  assert (Hname : name <> "") by now apply or_opt_nonempty.
  pose (t := {| VideoChat.roomName := room;
                VideoChat.participantIdentity := VideoChat.uid u;
                VideoChat.participantName := name |}).
  assert (Hg : VideoChat.getToken (VideoChat.render w) = Some t)
    by exact (getToken_user (VideoChat.render w) u Hu Hne).
  exists t. split; [exact Hg |]. split; [reflexivity |].
  split; [exact Hroom |]. split; [exact Hname |].
  split.
  { intros t0 throws. unfold VideoChat.mount. cbv zeta.
    rewrite (getToken_user
               (VideoChat.render
                  (VideoChat.initial (VideoChat.w_props w) (Some u) t0 throws))
               u eq_refl Hne).
    reflexivity. }
  assert (Hr : TokenEndpoint.truthy (Some (TokenEndpoint.JString room)) = true)
    by now apply truthy_string.
  assert (Hi : TokenEndpoint.truthy
                 (Some (TokenEndpoint.JString (VideoChat.uid u))) = true)
    by now apply truthy_string.
  assert (Hn : TokenEndpoint.truthy (Some (TokenEndpoint.JString name)) = true)
    by now apply truthy_string.
  assert (Hpost : forall env',
    TokenEndpoint.POST toJwt m (Join.request_of t) env' =
      if TokenEndpoint.credentials_missing env' then
        TokenEndpoint.NextResponse_json
          (TokenEndpoint.JObject
             [("error", TokenEndpoint.JString
                 "Server configuration error - LiveKit credentials not set")])
          (Some 500)
      else
        match toJwt (TokenEndpoint.access_token
                       (default "" (TokenEndpoint.LIVEKIT_API_KEY env'))
                       (default "" (TokenEndpoint.LIVEKIT_API_SECRET env'))
                       (Some (TokenEndpoint.JString room))
                       (Some (TokenEndpoint.JString name))
                       (Some (TokenEndpoint.JString (VideoChat.uid u)))) with
        | inr token =>
            TokenEndpoint.NextResponse_json
              (TokenEndpoint.JObject [("token", TokenEndpoint.JString token)]) None
        | inl e =>
            TokenEndpoint.NextResponse_json
              (TokenEndpoint.JObject
                 [("error", TokenEndpoint.JString "Failed to generate token");
                  ("details", TokenEndpoint.JString (TokenEndpoint.details_of e))])
              (Some 500)
        end).
  { intros env'. unfold TokenEndpoint.POST, TokenEndpoint.try_block,
      TokenEndpoint.credentials_missing, Join.request_of.
    cbn [TokenEndpoint.json TokenEndpoint.destructure TokenEndpoint.prop
         TokenEndpoint.member VideoChat.roomName VideoChat.participantIdentity
         VideoChat.participantName String.eqb Ascii.eqb Bool.eqb].
    change (VideoChat.roomName t) with room.
    change (VideoChat.participantIdentity t) with (VideoChat.uid u).
    change (VideoChat.participantName t) with name.
    rewrite Hr, Hi. cbn [negb orb]. cbv zeta.
    destruct (negb (TokenEndpoint.nonempty (TokenEndpoint.LIVEKIT_API_KEY env')) ||
              negb (TokenEndpoint.nonempty (TokenEndpoint.LIVEKIT_API_SECRET env')));
      [reflexivity |].
    destruct (toJwt _); reflexivity. }
  assert (Hjoin :
    Join.join toJwt m env w =
      VideoChat.dispatch (Join.answer (TokenEndpoint.POST toJwt m (Join.request_of t) env)) w).
  { unfold Join.join. rewrite Hg. reflexivity. }
  assert (Hfail : VideoChat.dispatch VideoChat.TokenFailed w = failed).
  { unfold VideoChat.dispatch. cbv zeta. now rewrite Hg. }
  split; [| split].
  - rewrite Hpost. destruct (TokenEndpoint.credentials_missing env); [discriminate |].
    destruct (toJwt _); discriminate.
  - intros Hc. rewrite Hjoin.
    rewrite Hpost, Hc. exact Hfail.
  - intros apiKey apiSecret Hk Hkn Hs Hsn.
    rewrite Hjoin.
    rewrite Hpost.
    assert (Hc : TokenEndpoint.credentials_missing env = false).
    { unfold TokenEndpoint.credentials_missing. rewrite Hk, Hs. simpl.
      apply String.eqb_neq in Hkn, Hsn. now rewrite Hkn, Hsn. }
    rewrite Hc, Hk, Hs. simpl default.
    destruct (toJwt _) as [e | token]; [exact Hfail |].
    unfold Join.answer. simpl. unfold VideoChat.dispatch. cbv zeta. now rewrite Hg.
Qed.

Lemma joining_with_a_user_witness :
  exists t,
    VideoChat.getToken (VideoChat.render Examples.at_mount) = Some t /\
    VideoChat.roomName t = "u1_u2" /\
    TokenEndpoint.status
      (TokenEndpoint.POST Examples.signer Examples.type_error
         (Join.request_of t) Examples.env_ok) <> 400 /\
    VideoChat.calls Examples.at_mount =
      [VideoChat.console_log ["ðŸŽ¯ Fetching LiveKit token for room:"; "u1_u2"]] /\
    Join.join Examples.signer Examples.type_error Examples.env_ok Examples.at_mount =
      VideoChat.call (VideoChat.console_log ["âœ… LiveKit token received"])
        (VideoChat.setToken "jwt" Examples.at_mount).
Proof.
  destruct (joining_with_a_user Examples.signer Examples.type_error Examples.env_ok
              Examples.at_mount Examples.u2 eq_refl ltac:(discriminate))
    as (t & Hg & Hroom & Hr & Hn & Hm & Hs & _ & Htok).
  exists t.
  split; [exact Hg |]. split; [exact Hroom |]. split; [exact Hs |].
  split; [exact (Hm 0 false) |].
  exact (Htok "key" "secret" eq_refl ltac:(discriminate) eq_refl ltac:(discriminate)).
Defined.

(** ** The clock *)

Section Clock.
Import VideoChat.

(** Two digits, checked on each number below a hundred. *)
Lemma padStart_two_digits (n : Z) :
  0 <= n < 100 ->
  Js.padStart 2 "0" (Js.toString n) =
    String (Js.digit (n / 10)) (String (Js.digit (n mod 10)) "").
Proof.
  intros H.
  assert (Hall : forallb
            (fun k : nat =>
               String.eqb (Js.padStart 2 "0" (Js.toString (Z.of_nat k)))
                 (String (Js.digit (Z.of_nat k / 10))
                    (String (Js.digit (Z.of_nat k mod 10)) "")))
            (List.seq 0 100) = true) by (vm_compute; reflexivity).
  rewrite forallb_forall in Hall.
  specialize (Hall (Z.to_nat n)).
  rewrite Z2Nat.id in Hall by lia. apply String.eqb_eq, Hall.
  apply in_seq. lia.
Qed.

Lemma digit_inj (a b : Z) :
  0 <= a < 10 -> 0 <= b < 10 -> Js.digit a = Js.digit b -> a = b.
Proof.
  intros Ha Hb H. unfold Js.digit in H.
  apply (f_equal N_of_ascii) in H.
  rewrite !N_ascii_embedding in H by lia. lia.
Qed.

Lemma formatDuration_digits (seconds : Z) :
  0 <= seconds < 6000 ->
  formatDuration seconds =
    String (Js.digit (seconds / 600))
      (String (Js.digit (seconds / 60 mod 10))
         (String ":"
            (String (Js.digit (seconds mod 60 / 10))
               (String (Js.digit (seconds mod 10)) "")))).
Proof.
  intros H. unfold formatDuration. cbv zeta.
  rewrite Z.rem_mod_nonneg by lia.
  rewrite (padStart_two_digits (seconds / 60))
    by (split; [apply Z.div_pos; lia | apply Z.div_lt_upper_bound; lia]).
  rewrite (padStart_two_digits (seconds mod 60))
    by (pose proof (Z.mod_pos_bound seconds 60); lia).
  replace (seconds / 60 / 10) with (seconds / 600)
    by (rewrite Z.div_div by lia; reflexivity).
  replace (seconds mod 60 mod 10) with (seconds mod 10).
  - reflexivity.
  - symmetry. apply (Z.mod_mod_divide seconds 60 10). exists 6. reflexivity.
Qed.

End Clock.

(** X11. For a call shorter than a hundred minutes the clock reads
    [MM:SS]: the tens and units of the whole minutes, a colon, the tens
    and units of the seconds left. Two different durations never read
    the same. *)
Theorem formatDuration_clock :
  forall seconds,
    0 <= seconds < 6000 ->
    VideoChat.formatDuration seconds =
      String (Js.digit (seconds / 600))
        (String (Js.digit (seconds / 60 mod 10))
           (String ":"
              (String (Js.digit (seconds mod 60 / 10))
                 (String (Js.digit (seconds mod 10)) "")))) /\
    String.length (VideoChat.formatDuration seconds) = 5%nat /\
    forall other,
      0 <= other < 6000 ->
      VideoChat.formatDuration other = VideoChat.formatDuration seconds ->
      other = seconds.
Proof.
  intros seconds H. split; [now apply formatDuration_digits |]. split.
  - now rewrite formatDuration_digits.
  - intros other Ho E. rewrite !formatDuration_digits in E by assumption.
    injection E as E1 E2 E3 E4.
    apply digit_inj in E1, E2, E3, E4;
      try (split; [apply Z.div_pos; lia | apply Z.div_lt_upper_bound; lia]);
      try (apply Z.mod_pos_bound; lia);
      try (pose proof (Z.mod_pos_bound seconds 60); pose proof (Z.mod_pos_bound other 60);
           split; [apply Z.div_pos; lia | apply Z.div_lt_upper_bound; lia]).
    clear - E1 E2 E3 E4 H Ho. Z.div_mod_to_equations. lia.
Qed.

Lemma formatDuration_clock_witness :
  VideoChat.formatDuration 754 =
    String (Js.digit (754 / 600))
      (String (Js.digit (754 / 60 mod 10))
         (String ":"
            (String (Js.digit (754 mod 60 / 10))
               (String (Js.digit (754 mod 10)) "")))) /\
  String.length (VideoChat.formatDuration 754) = 5%nat /\
  forall other,
    0 <= other < 6000 ->
    VideoChat.formatDuration other = VideoChat.formatDuration 754 ->
    other = 754.
Proof.
  apply (formatDuration_clock 754). lia.
Defined.

(** ** What each input makes the component call *)

Section Emitted.
Import VideoChat.

Lemma emitted_of (i : Input) (w : World) (new : list Call) :
  calls (dispatch i w) = calls w ++ new -> emitted i w = new.
Proof. intros E. unfold emitted. rewrite E. apply drop_app_length. Qed.

Lemma emitted_nil (i : Input) (w : World) :
  calls (dispatch i w) = calls w -> emitted i w = [].
Proof. intros E. apply emitted_of. now rewrite app_nil_r. Qed.

Lemma self_app {A : Type} (l new : list A) : l = l ++ new -> new = [].
Proof.
  intros E. apply (app_inv_head l). now rewrite app_nil_r.
Qed.

(** The calls of an input, input by input. *)
Lemma emitted_cases (i : Input) (w : World) :
  emitted i w = [] \/
  (exists t,
     i = TokenReceived t /\ is_Some (getToken (render w)) /\
     emitted i w = [console_log ["âœ… LiveKit token received"]]) \/
  (i = TokenFailed /\ is_Some (getToken (render w)) /\
   emitted i w =
     [console_error "âŒ LiveKit token error:";
      alert "Failed to join video call. Please check your LiveKit credentials.";
      onEndCall]) \/
  (i = ClickEndCall /\
   emitted i w = [addSessionHistory (entry_of_handleEndCall (render w) w)]) \/
  (i = Disconnected /\
   emitted i w = [addSessionHistory (entry_of_handleDisconnect (render w) w)]) \/
  (i = ClickStartRecording /\
   emitted i w = [console_error "Failed to start recording:"]) \/
  (exists data recorder rest rec,
     i = RunTask data /\ tasks w = RecorderStopped recorder :: rest /\
     recorders w !! recorder = Some rec /\
     calls (onstop (rec_closure rec) w) = calls w ++ emitted i w) \/
  (exists k s a,
     i = Settle k s /\ awaiting w !! k = Some a /\
     calls (resume a s w) = calls w ++ emitted i w).
Proof.
  destruct i.
  - destruct (getToken (render w)) as [t' |] eqn:Eg.
    + right; left. exists t. split; [reflexivity |]. split; [eauto |].
      apply emitted_of. unfold dispatch. cbv zeta. now rewrite Eg.
    + left. apply emitted_nil. unfold dispatch. cbv zeta. now rewrite Eg.
  - destruct (getToken (render w)) as [t |] eqn:Eg.
    + right; right; left. split; [reflexivity |]. split; [eauto |].
      apply emitted_of. unfold dispatch. cbv zeta. rewrite Eg. simpl.
      now rewrite <- !app_assoc.
    + left. apply emitted_nil. unfold dispatch. cbv zeta. now rewrite Eg.
  - left. now apply emitted_nil.
  - left. now apply emitted_nil.
  - left. apply emitted_nil. unfold dispatch. cbv zeta. now destruct (_ && _).
  - left. apply emitted_nil. unfold dispatch. cbv zeta.
    destruct (_ && _); [apply stopRecording_calls | reflexivity].
  - destruct (negb (String.eqb (token (state (render w))) "")) eqn:Ej.
    + right; right; right; left. split; [reflexivity |]. apply emitted_of.
      unfold dispatch. cbv zeta. rewrite Ej. apply handleEndCall_calls.
    + left. apply emitted_nil. unfold dispatch. cbv zeta. now rewrite Ej.
  - left. apply emitted_nil. unfold dispatch. cbv zeta. now destruct (_ && _).
  - left. apply emitted_nil. unfold dispatch. cbv zeta. now destruct (_ && _).
  - destruct (negb (String.eqb (token (state (render w))) "") &&
              showRecordingSettings (state (render w))) eqn:Ed.
    + destruct (startRecording_calls (render w) w) as [E | E].
      * left. apply emitted_nil. unfold dispatch. cbv zeta. now rewrite Ed.
      * right; right; right; right; right; left. split; [reflexivity |].
        apply emitted_of. unfold dispatch. cbv zeta. now rewrite Ed.
    + left. apply emitted_nil. unfold dispatch. cbv zeta. now rewrite Ed.
  - left. apply emitted_nil. unfold dispatch. cbv zeta. now destruct (_ && _).
  - destruct (negb (String.eqb (token (state (render w))) "")) eqn:Ej.
    + right; right; right; right; left. split; [reflexivity |]. apply emitted_of.
      unfold dispatch. cbv zeta. rewrite Ej. apply handleDisconnect_calls.
    + left. apply emitted_nil. unfold dispatch. cbv zeta. now rewrite Ej.
  - destruct (tasks w) as [| [recorder] rest] eqn:Et.
    + left. apply emitted_nil. unfold dispatch. cbv zeta. now rewrite Et.
    + assert (Er : recorders (ondataavailable data (with_tasks rest w)) = recorders w)
        by (unfold ondataavailable; now destruct (0 <? size data)).
      destruct (recorders w !! recorder) as [rec |] eqn:El.
      * right; right; right; right; right; right; left.
        exists data, recorder, rest, rec.
        split; [reflexivity |]. split; [reflexivity |]. split; [exact El |].
        assert (E : calls (dispatch (RunTask data) w) =
                    calls w ++ [uploadRecording
                      (new_Blob (recordedChunks (state (rec_closure rec))) "video/webm")
                      {| u_title := Js.or_str (recordingTitle (state (rec_closure rec)))
                           ("Session with " +:+ partnerName (props (rec_closure rec)));
                         u_ownerId := Js.or_opt (uid <$> user (rec_closure rec)) "";
                         u_ownerName :=
                           Js.or_opt (user (rec_closure rec) ≫= displayName) "User";
                         u_partnerId := partnerId (props (rec_closure rec));
                         u_partnerName := partnerName (props (rec_closure rec));
                         u_price := recordingPrice (state (rec_closure rec));
                         u_isPublic := false |}]).
        { unfold dispatch. cbv zeta. rewrite Et. cbv beta iota. rewrite Er, El.
          unfold onstop. simpl. now rewrite ondataavailable_calls. }
        rewrite (emitted_of _ _ _ E). reflexivity.
      * left. apply emitted_nil. unfold dispatch. cbv zeta. rewrite Et.
        cbv beta iota. rewrite Er, El. now rewrite ondataavailable_calls.
  - destruct (awaiting w !! k) as [a |] eqn:Ea.
    + right; right; right; right; right; right; right. exists k, s, a.
      split; [reflexivity |]. split; [first [reflexivity | exact Ea] |].
      assert (E : exists new, calls (resume a s w) = calls w ++ new /\
                    calls (dispatch (Settle k s) w) = calls w ++ new).
      { unfold dispatch. cbv zeta. rewrite Ea.
        destruct a as [| | r |]; destruct s as [[u |] |]; simpl;
          first [ exists []; rewrite app_nil_r; split; reflexivity
                | eexists [_]; split; reflexivity ]. }
      destruct E as (new & E1 & E2). now rewrite (emitted_of _ _ _ E2).
    + left. apply emitted_nil. unfold dispatch. cbv zeta. now rewrite Ea.
Qed.

End Emitted.

(** ** Ending the call: when the parent is told *)

Section Notify.
Import VideoChat.

Lemma stopRecording_awaiting (r : Render) (w : World) :
  awaiting (stopRecording r w) = awaiting w.
Proof.
  unfold stopRecording, MediaRecorder_stop.
  destruct (mediaRecorder (state r)) as [recorder |]; [| reflexivity].
  destruct (recorders w !! recorder) as [rec |]; simpl; [| reflexivity].
  now destruct (rec_state rec).
Qed.

Lemma emitted_settle (k : nat) (s : Settlement) (w : World) (a : Awaiting) :
  awaiting w !! k = Some a ->
  calls (resume a s w) = calls w ++ emitted (Settle k s) w.
Proof.
  intros Ha.
  assert (E : exists new, calls (resume a s w) = calls w ++ new /\
                calls (dispatch (Settle k s) w) = calls w ++ new).
  { unfold dispatch. cbv zeta. rewrite Ha.
    destruct a as [| | r |]; destruct s as [[u |] |]; simpl;
      first [ exists []; rewrite app_nil_r; split; reflexivity
            | eexists [_]; split; reflexivity ]. }
  destruct E as (new & E1 & E2). now rewrite (emitted_of _ _ _ E2).
Qed.

End Notify.

(** X12. The parent is told that the call ended, by [onEndCall], in two
    cases only: the token request failed, or the history write of one of
    the two handlers was fulfilled. The handlers themselves write the
    entry and wait; when the write is rejected [onEndCall] is never
    called for that termination. *)
Theorem onEndCall_follows_the_history_write :
  (forall i w,
     In VideoChat.onEndCall (VideoChat.emitted i w) ->
     i = VideoChat.TokenFailed \/
     exists k v,
       i = VideoChat.Settle k (VideoChat.Fulfilled v) /\
       (VideoChat.awaiting w !! k = Some VideoChat.handleEndCall_addSessionHistory \/
        VideoChat.awaiting w !! k = Some VideoChat.handleDisconnect_addSessionHistory)) /\
  (forall r w,
     VideoChat.awaiting (VideoChat.handleEndCall r w) =
       VideoChat.awaiting w ++ [VideoChat.handleEndCall_addSessionHistory] /\
     VideoChat.awaiting (VideoChat.handleDisconnect r w) =
       VideoChat.awaiting w ++ [VideoChat.handleDisconnect_addSessionHistory]) /\
  (forall k w a,
     VideoChat.awaiting w !! k = Some a ->
     a = VideoChat.handleEndCall_addSessionHistory \/
     a = VideoChat.handleDisconnect_addSessionHistory ->
     VideoChat.emitted (VideoChat.Settle k VideoChat.Rejected) w = [] /\
     forall v,
       VideoChat.emitted (VideoChat.Settle k (VideoChat.Fulfilled v)) w =
         [VideoChat.onEndCall]).
Proof.
  split; [| split].
  - intros i w Hin.
    destruct (emitted_cases i w)
      as [E | [(t & _ & _ & E) | [[-> _] | [[_ E] | [[_ E] | [[_ E] |
          [(d & id & rest & rec & _ & _ & _ & E) |
           (k & s & a & -> & Ha & E)]]]]]]].
    + rewrite E in Hin. destruct Hin.
    + rewrite E in Hin. destruct Hin as [H | []]. discriminate.
    + now left.
    + rewrite E in Hin. destruct Hin as [H | []]. discriminate.
    + rewrite E in Hin. destruct Hin as [H | []]. discriminate.
    + rewrite E in Hin. destruct Hin as [H | []]. discriminate.
    + unfold VideoChat.onstop in E. simpl in E. apply app_inv_head in E.
      rewrite <- E in Hin. destruct Hin as [H | []]. discriminate.
    + right. destruct a as [| | r |]; destruct s as [[u |] |]; simpl in E;
        first [apply app_inv_head in E | apply self_app in E];
        first [rewrite <- E in Hin | rewrite E in Hin];
        try (destruct Hin as [H | []]; discriminate); try (now destruct Hin).
      all: eexists k, _; split; [reflexivity | auto].
  - intros r w. split; [| reflexivity].
    unfold VideoChat.handleEndCall. simpl.
    destruct (VideoChat.isRecording (VideoChat.state r)); [| reflexivity].
    now rewrite stopRecording_awaiting.
  - intros k w a Ha Hk. split; [| intros v].
    + pose proof (emitted_settle k VideoChat.Rejected w a Ha) as E.
      destruct Hk as [-> | ->]; simpl in E; now apply self_app in E.
    + pose proof (emitted_settle k (VideoChat.Fulfilled v) w a Ha) as E.
      destruct Hk as [-> | ->]; simpl in E; now apply app_inv_head in E.
Qed.

Lemma onEndCall_follows_witness :
  VideoChat.emitted (VideoChat.Settle 0 VideoChat.Rejected) Examples.ending = [] /\
  forall v,
    VideoChat.emitted (VideoChat.Settle 0 (VideoChat.Fulfilled v)) Examples.ending =
      [VideoChat.onEndCall].
Proof.
  exact (proj2 (proj2 onEndCall_follows_the_history_write) 0%nat Examples.ending
           VideoChat.handleEndCall_addSessionHistory eq_refl (or_introl eq_refl)).
Defined.

(** ** Stopping *)

Section Stopping.
Import VideoChat.

(** Without a recorder that is recording, [stopRecording] does nothing. *)
Lemma stopRecording_idle (r : Render) (w : World) :
  (forall recorder rec,
     mediaRecorder (state r) = Some recorder ->
     recorders w !! recorder = Some rec -> rec_state rec <> recording) ->
  stopRecording r w = w.
Proof.
  intros H. unfold stopRecording.
  destruct (mediaRecorder (state r)) as [recorder |]; [| reflexivity].
  destruct (recorders w !! recorder) as [rec |] eqn:El; simpl; [| reflexivity].
  destruct (rec_state rec) eqn:Es; try reflexivity.
  now destruct (H recorder rec eq_refl El).
Qed.

Lemma stopRecording_idem (r : Render) (w : World) :
  stopRecording r (stopRecording r w) = stopRecording r w.
Proof.
  destruct (mediaRecorder (state r)) as [recorder |] eqn:Em.
  2:{ assert (Hw : stopRecording r w = w)
        by (apply stopRecording_idle; intros; congruence).
      now rewrite !Hw. }
  destruct (recorders w !! recorder) as [rec |] eqn:El.
  2:{ assert (Hw : stopRecording r w = w)
        by (apply stopRecording_idle; intros; congruence).
      now rewrite !Hw. }
  destruct (rec_state rec) eqn:Es.
  1,3: assert (Hw : stopRecording r w = w)
         by (apply stopRecording_idle; intros; congruence);
       now rewrite !Hw.
  rewrite (stopRecording_active r w recorder rec Em El Es).
  apply stopRecording_idle. intros id rec' Hid Hl.
  rewrite Em in Hid. injection Hid as <-. simpl in Hl.
  rewrite list_lookup_insert_eq in Hl by (eapply lookup_lt_Some; exact El).
  injection Hl as <-. discriminate.
Qed.

(** A call to a collaborator and the recorder's stop do not interfere. *)
Lemma stopRecording_call_await (r : Render) (w : World) (c : Call) (k : Awaiting) :
  stopRecording r (await k (call c w)) = await k (call c (stopRecording r w)).
Proof.
  unfold stopRecording, MediaRecorder_stop.
  destruct (mediaRecorder (state r)) as [recorder |]; [| reflexivity].
  change (recorders (await k (call c w))) with (recorders w).
  destruct (recorders w !! recorder) as [rec |]; simpl; [| reflexivity].
  destruct (rec_state rec); reflexivity.
Qed.

Lemma handleEndCall_unfold (r : Render) (w : World) :
  handleEndCall r w =
    await handleEndCall_addSessionHistory
      (call (addSessionHistory (entry_of_handleEndCall r w))
         (if isRecording (state r) then stopRecording r w else w)).
Proof.
  unfold handleEndCall, entry_of_handleEndCall.
  destruct (isRecording (state r)); [| reflexivity].
  now destruct (stopRecording_calls r w) as [_ ->].
Qed.

End Stopping.

(** X15. Stopping twice is stopping once: a second [stopRecording] from
    the same render finds the recorder inactive and changes nothing, so
    the browser has one stop task for the recorder and there will be one
    upload. The same holds for the end-call button pressed twice: the
    second press adds nothing to the tasks and leaves the recorders as
    they are. *)
Theorem stopping_twice_is_stopping_once :
  forall r w,
    VideoChat.stopRecording r (VideoChat.stopRecording r w) =
      VideoChat.stopRecording r w /\
    VideoChat.tasks (VideoChat.handleEndCall r (VideoChat.handleEndCall r w)) =
      VideoChat.tasks (VideoChat.handleEndCall r w) /\
    VideoChat.recorders (VideoChat.handleEndCall r (VideoChat.handleEndCall r w)) =
      VideoChat.recorders (VideoChat.handleEndCall r w) /\
    (List.length (VideoChat.tasks (VideoChat.handleEndCall r w)) <=
       S (List.length (VideoChat.tasks w)))%nat.
Proof.
  intros r w. split; [apply stopRecording_idem |].
  rewrite (handleEndCall_unfold r (VideoChat.handleEndCall r w)).
  rewrite (handleEndCall_unfold r w).
  destruct (VideoChat.isRecording (VideoChat.state r)).
  - rewrite stopRecording_call_await, stopRecording_idem.
    split; [reflexivity |]. split; [reflexivity |].
    simpl. unfold VideoChat.stopRecording, VideoChat.MediaRecorder_stop.
    destruct (VideoChat.mediaRecorder (VideoChat.state r)) as [recorder |]; [| lia].
    destruct (VideoChat.recorders w !! recorder) as [rec |]; simpl; [| lia].
    destruct (VideoChat.rec_state rec); simpl; rewrite ?length_app; simpl; lia.
  - simpl. split; [reflexivity |]. split; [reflexivity | lia].
Qed.

(** ** Durations *)

Section Durations.
Import VideoChat.

(** What an input does to the clock, the start time and the duration
    shown. *)
Lemma dispatch_clock (i : Input) (w : World) :
  w_props (dispatch i w) = w_props w /\
  startTimeRef (dispatch i w) = startTimeRef w /\
  now (dispatch i w) = match i with Elapse ms => now w + Z.of_N ms | _ => now w end /\
  callDuration (w_state (dispatch i w)) =
    match i with
    | IntervalTick => (now w - startTimeRef w) / 1000
    | _ => callDuration (w_state w)
    end.
Proof.
  assert (stop : forall r,
            w_props (stopRecording r w) = w_props w /\
            startTimeRef (stopRecording r w) = startTimeRef w /\
            now (stopRecording r w) = now w /\
            callDuration (w_state (stopRecording r w)) = callDuration (w_state w)).
  { intros r. unfold stopRecording, MediaRecorder_stop.
    destruct (mediaRecorder (state r)) as [id |]; [| now repeat split].
    destruct (recorders w !! id) as [rec |]; simpl; [| now repeat split].
    destruct (rec_state rec); now repeat split. }
  destruct i; unfold dispatch; cbv zeta.
  - destruct (getToken _); now repeat split.
  - destruct (getToken _); now repeat split.
  - now repeat split.
  - now repeat split.
  - destruct (_ && _); now repeat split.
  - destruct (_ && _); [apply stop | now repeat split].
  - destruct (negb _); [| now repeat split].
    unfold handleEndCall. simpl.
    destruct (isRecording _); [apply stop | now repeat split].
  - destruct (_ && _); now repeat split.
  - destruct (_ && _); now repeat split.
  - destruct (_ && _); [| now repeat split].
    unfold startRecording. destruct (localStreamRef w); [| now repeat split].
    destruct (recorderThrows w); now repeat split.
  - destruct (_ && _); now repeat split.
  - destruct (negb _); now repeat split.
  - destruct (tasks w) as [| [id] rest]; [now repeat split |].
    unfold ondataavailable. destruct (0 <? size data); simpl;
      destruct (recorders w !! id); now repeat split.
  - destruct (awaiting w !! k) as [a |]; [| now repeat split].
    destruct a as [| | r |]; destruct s as [[u |] |]; now repeat split.
Qed.

(** The duration shown is never negative and never ahead of the clock. *)
Lemma run_clock (inputs : list Input) (w : World) :
  startTimeRef w <= now w ->
  0 <= callDuration (w_state w) <= (now w - startTimeRef w) / 1000 ->
  let w' := run inputs w in
  w_props w' = w_props w /\
  startTimeRef w' = startTimeRef w /\
  now w <= now w' /\
  0 <= callDuration (w_state w') <= (now w' - startTimeRef w') / 1000.
Proof.
  revert w. induction inputs as [| i inputs IH]; intros w H1 H2; simpl.
  - repeat split; lia.
  - destruct (dispatch_clock i w) as (Ep & Es & En & Ec).
    assert (Hn : now w <= now (dispatch i w)) by (rewrite En; destruct i; lia).
    assert (Hd : (now w - startTimeRef w) / 1000 <=
                 (now (dispatch i w) - startTimeRef w) / 1000)
      by (apply Z.div_le_mono; lia).
    destruct (IH (dispatch i w)) as (Ep' & Es' & En' & Ec').
    + lia.
    + rewrite Es, Ec. destruct i; lia.
    + split; [congruence |]. repeat split; lia.
Qed.

(** The mounted component: the props and the user it was given, the
    initial state, and the clock at the start time. *)
Lemma mount_fields (p : Props) (u : option User) (t0 : Z) (throws : bool) :
  w_props (mount p u t0 throws) = p /\
  w_user (mount p u t0 throws) = u /\
  w_state (mount p u t0 throws) = w_state (initial p u t0 throws) /\
  startTimeRef (mount p u t0 throws) = t0 /\
  now (mount p u t0 throws) = t0.
Proof. unfold mount. cbv zeta. destruct (getToken _); now repeat split. Qed.

End Durations.

(** X16. In a mounted component the duration shown is never negative and
    never more than the whole seconds elapsed since the mount; so no
    history entry, by either handler, has a negative duration or one
    longer than the call, and every entry carries the time of its
    writing. *)
Theorem stored_duration_is_bounded :
  forall inputs p u t0 throws i e,
    let w := VideoChat.run inputs (VideoChat.mount p u t0 throws) in
    In (VideoChat.addSessionHistory e) (VideoChat.emitted i w) ->
    0 <= VideoChat.callDuration (VideoChat.w_state w) <= (VideoChat.now w - t0) / 1000 /\
    0 <= VideoChat.h_duration e <= (VideoChat.now w - t0) / 1000 /\
    VideoChat.h_timestamp e = VideoChat.now w /\
    VideoChat.h_partnerId e = VideoChat.partnerId p /\
    VideoChat.h_connectionFee e = VideoChat.connectionFee p.
Proof.
  intros inputs p u t0 throws i e w Hin.
  destruct (mount_fields p u t0 throws) as (Mp & _ & Ms & Mt & Mn).
  destruct (run_clock inputs (VideoChat.mount p u t0 throws)) as (Hp & Es & En & Ec).
  { rewrite Mt, Mn. lia. }
  { rewrite Ms, Mt, Mn.
    cbn [VideoChat.initial VideoChat.w_state VideoChat.callDuration].
    rewrite Z.sub_diag. change (0 / 1000) with 0. lia. }
  fold w in Hp, Es, En, Ec. rewrite Mp in Hp. rewrite Mt in Es. rewrite Mn in En.
  rewrite Es in Ec.
  split; [exact Ec |].
  destruct (emitted_history i w e Hin) as [[_ ->] | [_ ->]]; simpl; rewrite ?Es, Hp;
    repeat split; try lia.
  all: unfold Js.floor_div_1000; lia.
Qed.

Lemma stored_duration_witness :
  let w := VideoChat.run
             [VideoChat.TokenReceived "tok"; VideoChat.Elapse 1500;
              VideoChat.IntervalTick; VideoChat.Elapse 700]
             (VideoChat.mount Examples.to_u1 (Some Examples.u2) 0 false) in
  let e := VideoChat.entry_of_handleEndCall (VideoChat.render w) w in
  0 <= VideoChat.callDuration (VideoChat.w_state w) <= (VideoChat.now w - 0) / 1000 /\
  0 <= VideoChat.h_duration e <= (VideoChat.now w - 0) / 1000 /\
  VideoChat.h_timestamp e = VideoChat.now w /\
  VideoChat.h_partnerId e = VideoChat.partnerId Examples.to_u1 /\
  VideoChat.h_connectionFee e = VideoChat.connectionFee Examples.to_u1.
Proof.
  intros w e.
  refine (stored_duration_is_bounded
            [VideoChat.TokenReceived "tok"; VideoChat.Elapse 1500;
             VideoChat.IntervalTick; VideoChat.Elapse 700]
            Examples.to_u1 (Some Examples.u2) 0 false VideoChat.ClickEndCall e _).
  vm_compute. left. reflexivity.
Defined.

(** ** The inner component *)

Section Inner.
Import CustomVideoUI.

(** A step of the page does to the outer component what the input for
    the component does, or logs, or nothing. *)
Lemma step_never_recorded (i : Input) (pg : Page) :
  VideoChat.never_recorded (component pg) ->
  VideoChat.never_recorded (component (step i pg)).
Proof.
  intros H. destruct i; unfold step.
  - rewrite effects_component. simpl. now apply never_recorded_dispatch.
  - rewrite effects_component. exact H.
  - destruct (capturing pg); exact H.
  - destruct (capturing pg); [exact H |]. exact H.
Qed.

Lemma run_never_recorded (inputs : list Input) (pg : Page) :
  VideoChat.never_recorded (component pg) ->
  VideoChat.never_recorded (component (run inputs pg)).
Proof.
  revert pg. induction inputs as [| i inputs IH]; intros pg H; [exact H |].
  simpl. apply IH. now apply step_never_recorded.
Qed.

End Inner.

(** X18. The stream the page captures never reaches [startRecording].
    The inner component keeps it in a reference of its own, and nothing
    assigns the reference the outer component reads; so whatever the room
    reports and however many streams are captured, the mounted component
    holds no stream and no recorder, the recording flag stays down, and
    the Start button of the settings dialog changes nothing at all. *)
Theorem captured_stream_never_enables_recording :
  forall inputs p u t0 throws,
    let pg := CustomVideoUI.run inputs (CustomVideoUI.mount p u t0 throws) in
    VideoChat.localStreamRef (CustomVideoUI.component pg) = None /\
    VideoChat.isRecording (VideoChat.w_state (CustomVideoUI.component pg)) = false /\
    VideoChat.recorders (CustomVideoUI.component pg) = [] /\
    VideoChat.dispatch VideoChat.ClickStartRecording (CustomVideoUI.component pg) =
      CustomVideoUI.component pg /\
    (forall s,
       CustomVideoUI.capturing pg <> O ->
       CustomVideoUI.ui_localStreamRef
         (CustomVideoUI.step (CustomVideoUI.Captured s) pg) = Some s /\
       VideoChat.localStreamRef
         (CustomVideoUI.component (CustomVideoUI.step (CustomVideoUI.Captured s) pg)) =
         None).
Proof.
  intros inputs p u t0 throws pg.
  assert (H : VideoChat.never_recorded (CustomVideoUI.component pg)).
  { apply run_never_recorded. apply never_recorded_mounted. }
  destruct H as (H1 & H2 & H3 & H4 & H5).
  repeat split; try assumption.
  - unfold VideoChat.dispatch. cbv zeta. destruct (_ && _); [| reflexivity].
    unfold VideoChat.startRecording. now rewrite H1.
  - unfold CustomVideoUI.step. destruct (CustomVideoUI.capturing pg); [contradiction |].
    reflexivity.
  - unfold CustomVideoUI.step. destruct (CustomVideoUI.capturing pg); assumption.
Qed.

Lemma captured_stream_witness :
  let pg := CustomVideoUI.run
              [CustomVideoUI.Component (VideoChat.TokenReceived "tok");
               CustomVideoUI.Room [Examples.me; Examples.partner]
                 [Examples.camera_of Examples.me; Examples.camera_of Examples.partner]]
              (CustomVideoUI.mount Examples.to_u1 (Some Examples.u2) 0 false) in
  CustomVideoUI.ui_localStreamRef
    (CustomVideoUI.step (CustomVideoUI.Captured (VideoChat.stream 7)) pg) =
    Some (VideoChat.stream 7) /\
  VideoChat.localStreamRef
    (CustomVideoUI.component
       (CustomVideoUI.step (CustomVideoUI.Captured (VideoChat.stream 7)) pg)) = None.
Proof.
  intros pg.
  refine (proj2 (proj2 (proj2 (proj2
            (captured_stream_never_enables_recording
               [CustomVideoUI.Component (VideoChat.TokenReceived "tok");
                CustomVideoUI.Room [Examples.me; Examples.partner]
                  [Examples.camera_of Examples.me; Examples.camera_of Examples.partner]]
               Examples.to_u1 (Some Examples.u2) 0 false))))
            (VideoChat.stream 7) _).
  vm_compute. discriminate.
Defined.
